(** * bagpy: the [bagreader] extraction methods and [timeindex]

    A shallow embedding of [bagpy/bagreader.py].

    - The extraction methods [laser_data], [vel_data], [std_data],
      [odometry_data], [wrench_data] and [clock_data] share one shape: select
      the lines of the topic table by type, and for each selected topic open
      a CSV file, write the header, then one row per record.  They are
      embedded over an explicit file store in a small state-and-exception
      monad, with the type filter, the header and the row function of each
      method collected in a [schema].
    - Time stamps are computed on binary64 floats, as Python does.
    - [timeindex] is embedded over a heap of data frames, so that aliasing
      between the argument and the returned table is visible, and over the
      global names of the module, which decide what its body can call. *)

From Stdlib Require Import ZArith String Ascii List Floats Uint63 Lia.
From stdpp Require Import base option list strings pretty gmap.

Local Open Scope string_scope.
Local Open Scope list_scope.

(** ** Python values, exceptions and results *)

(** What ends up in one field of a row handed to [csv.writer.writerow]. *)
Inductive cell : Type :=
| CNone
| CBool (b : bool)
| CInt (n : Z)
| CFloat (f : float)
| CStr (s : string).

Inductive exn : Type :=
| IndexError (msg : string)
| AttributeError (attr : string)
| NameError (name : string)
| KeyError (key : string)
| TypeError (msg : string)
| SystemError (msg : string)
| NotImplementedError (msg : string).

Inductive result (A : Type) : Type :=
| Ok (a : A)
| Raise (e : exn).
Arguments Ok {A} a.
Arguments Raise {A} e.

#[export] Instance result_ret : MRet result := fun A a => Ok a.
#[export] Instance result_bind : MBind result := fun A B f m =>
  match m with
  | Ok a => f a
  | Raise e => Raise e
  end.

(** A computation over a mutable store [S] that may raise: the store
    survives the exception, as a file written so far survives a raised
    error once its [with] block has closed it. *)
Definition M (S A : Type) : Type := S -> result A * S.

#[export] Instance M_ret {S} : MRet (M S) := fun A a s => (Ok a, s).
#[export] Instance M_bind {S} : MBind (M S) := fun A B f m s =>
  match m s with
  | (Ok a, s') => f a s'
  | (Raise e, s') => (Raise e, s')
  end.

Definition lift {S A} (r : result A) : M S A := fun s => (r, s).
Definition raise {S A} (e : exn) : M S A := fun s => (Raise e, s).
Definition modify {S} (f : S -> S) : M S unit := fun s => (Ok tt, f s).

(** ** ROS messages read by the extractors *)

Module RosTime.
Record t := mk { secs : Z; nsecs : Z }.
End RosTime.

Module Vector3.
Record t := mk { x : float; y : float; z : float }.
End Vector3.

Module Quaternion.
Record t := mk { x : float; y : float; z : float; w : float }.
End Quaternion.

Module Header.
Record t := mk { seq : Z; stamp : RosTime.t; frame_id : string }.
End Header.

Module Twist.
Record t := mk { linear : Vector3.t; angular : Vector3.t }.
End Twist.

Module Pose.
Record t := mk { position : Vector3.t; orientation : Quaternion.t }.
End Pose.

Module PoseWithCovariance.
Record t := mk { pose : Pose.t; covariance : list float }.
End PoseWithCovariance.

Module TwistWithCovariance.
Record t := mk { twist : Twist.t; covariance : list float }.
End TwistWithCovariance.

Module Odometry.
Record t := mk {
  header : Header.t;
  child_frame_id : string;
  pose : PoseWithCovariance.t;
  twist : TwistWithCovariance.t }.
End Odometry.

Module Wrench.
Record t := mk { force : Vector3.t; torque : Vector3.t }.
End Wrench.

Module Clock.
Record t := mk { clock : RosTime.t }.
End Clock.

Module LaserScan.
Record t := mk {
  header : Header.t;
  angle_min : float;
  angle_max : float;
  angle_increment : float;
  time_increment : float;
  scan_time : float;
  range_min : float;
  range_max : float;
  ranges : list float;
  intensities : list float }.
End LaserScan.

(** The message of a record.  [MsgStd] is any one-field [std_msgs]
    message; [MsgOther] stands for every type the extractors never read,
    with none of the attributes they ask for.  Reading an attribute a
    message lacks raises [AttributeError]. *)
Inductive message : Type :=
| MsgLaserScan (m : LaserScan.t)
| MsgTwist (m : Twist.t)
| MsgStd (data : cell)
| MsgOdometry (m : Odometry.t)
| MsgWrench (m : Wrench.t)
| MsgClock (m : Clock.t)
| MsgOther (type_name : string).

(** One [(topic, msg, t)] triple of [rosbag.Bag.read_messages]. *)
Record record := mk_record {
  rec_topic : string;
  rec_msg : message;
  rec_t : RosTime.t }.

(** ** The [bagreader] object *)

(** One line of [self.topic_table]. *)
Record topic_row := mk_topic_row {
  Topics : string;
  Types : string;
  Message_Count : Z;
  Frequency : float }.

Record bagreader := mk_bagreader {
  bagfile : string;
  reader : list record;
  topic_table : list topic_row;
  datafolder : string }.

(** [self.reader.read_messages(topics=topic, start_time=None, end_time=None)]:
    the records of one topic, in the order of the bag. *)
Definition read_messages (self : bagreader) (topic : string) : list record :=
  filter (fun r => rec_topic r = topic) (reader self).

(** ** Arithmetic on time stamps *)

(** Python's [int] to [float] conversion; exact below [2^53], which covers
    the unsigned 32-bit [secs] and [nsecs] of a ROS time. *)
Definition float_of_int (n : Z) : float :=
  if (n <? 0)%Z then PrimFloat.opp (PrimFloat.of_uint63 (Uint63.of_Z (- n)))
  else PrimFloat.of_uint63 (Uint63.of_Z n).

(** The double nearest to [1e-9], as Python reads the literal. *)
Definition nano : float := 0x1.12e0be826d695p-30%float.

(** [t.secs + t.nsecs*1e-9] *)
Definition time_of (t : RosTime.t) : float :=
  PrimFloat.add (float_of_int (RosTime.secs t))
                (PrimFloat.mul (float_of_int (RosTime.nsecs t)) nano).

(** ** Lists used as fixed arrays *)

Definition out_of_range : exn :=
  IndexError "list assignment index out of range".

(** [l[i] = v] on a Python list: an index past the end raises. *)
Definition setitem {A} (l : list A) (i : nat) (v : A) : result (list A) :=
  if decide (i < length l) then Ok (<[i := v]> l)
  else Raise out_of_range.

(** [for ir, ran in enumerate(values): slots[ir] = ran], started at [ir]. *)
Fixpoint fill_slots (slots : list cell) (ir : nat) (values : list float)
  : result (list cell) :=
  match values with
  | [] => Ok slots
  | ran :: rest =>
      slots' ← setitem slots ir (CFloat ran);
      fill_slots slots' (S ir) rest
  end.

(** ** Rows *)

Abbreviation row := (list cell).

(** The body of the read loop of [laser_data]. *)
Definition laser_row (t : RosTime.t) (msg : message) : result row :=
  match msg with
  | MsgLaserScan m =>
      let new_row :=
        [ CFloat (time_of t);
          CInt (Header.seq (LaserScan.header m));
          CStr (Header.frame_id (LaserScan.header m));
          CFloat (LaserScan.angle_min m);
          CFloat (LaserScan.angle_max m);
          CFloat (LaserScan.angle_increment m);
          CFloat (LaserScan.time_increment m);
          CFloat (LaserScan.scan_time m);
          CFloat (LaserScan.range_min m);
          CFloat (LaserScan.range_max m) ] in
      ranges ← fill_slots (replicate 182 CNone) 0 (LaserScan.ranges m);
      intensities ← fill_slots (replicate 182 CNone) 0 (LaserScan.intensities m);
      let new_row := new_row ++ ranges in
      let new_row := new_row ++ intensities in
      Ok new_row
  | MsgOdometry _ => Raise (AttributeError "angle_min")
  | _ => Raise (AttributeError "header")
  end.

(** The body of the read loop of [vel_data]. *)
Definition vel_row (t : RosTime.t) (msg : message) : result row :=
  match msg with
  | MsgTwist m =>
      Ok [ CFloat (time_of t);
           CFloat (Vector3.x (Twist.linear m));
           CFloat (Vector3.y (Twist.linear m));
           CFloat (Vector3.z (Twist.linear m));
           CFloat (Vector3.x (Twist.angular m));
           CFloat (Vector3.y (Twist.angular m));
           CFloat (Vector3.z (Twist.angular m)) ]
  | _ => Raise (AttributeError "linear")
  end.

(** The body of the read loop of [std_data]. *)
Definition std_row (t : RosTime.t) (msg : message) : result row :=
  match msg with
  | MsgStd data => Ok [ CFloat (time_of t); data ]
  | _ => Raise (AttributeError "data")
  end.

(** The body of the read loop of [odometry_data]. *)
Definition odometry_row (t : RosTime.t) (msg : message) : result row :=
  match msg with
  | MsgOdometry m =>
      let pose := PoseWithCovariance.pose (Odometry.pose m) in
      let twist := TwistWithCovariance.twist (Odometry.twist m) in
      Ok [ CFloat (time_of t);
           CInt (Header.seq (Odometry.header m));
           CStr (Header.frame_id (Odometry.header m));
           CStr (Odometry.child_frame_id m);
           CFloat (Vector3.x (Pose.position pose));
           CFloat (Vector3.y (Pose.position pose));
           CFloat (Vector3.z (Pose.position pose));
           CFloat (Quaternion.x (Pose.orientation pose));
           CFloat (Quaternion.y (Pose.orientation pose));
           CFloat (Quaternion.z (Pose.orientation pose));
           CFloat (Quaternion.w (Pose.orientation pose));
           CFloat (Vector3.x (Twist.linear twist));
           CFloat (Vector3.y (Twist.linear twist));
           CFloat (Vector3.z (Twist.linear twist)) ]
  | MsgLaserScan _ => Raise (AttributeError "child_frame_id")
  | _ => Raise (AttributeError "header")
  end.

(** The body of the read loop of [wrench_data]. *)
Definition wrench_row (t : RosTime.t) (msg : message) : result row :=
  match msg with
  | MsgWrench m =>
      Ok [ CFloat (time_of t);
           CFloat (Vector3.x (Wrench.force m));
           CFloat (Vector3.y (Wrench.force m));
           CFloat (Vector3.z (Wrench.force m));
           CFloat (Vector3.x (Wrench.torque m));
           CFloat (Vector3.y (Wrench.torque m));
           CFloat (Vector3.z (Wrench.torque m)) ]
  | _ => Raise (AttributeError "force")
  end.

(** The body of the read loop of [clock_data]. *)
Definition clock_row (t : RosTime.t) (msg : message) : result row :=
  match msg with
  | MsgClock m =>
      Ok [ CFloat (time_of t);
           CInt (RosTime.secs (Clock.clock m));
           CInt (RosTime.nsecs (Clock.clock m)) ]
  | _ => Raise (AttributeError "clock")
  end.

(** ** Schemas: type filter, header and row function of one extractor *)

(** How a method selects its lines of [self.topic_table]:
    [table['Types'] == type_to_look] or [table['Types'].isin(type_to_look)]. *)
Inductive type_filter : Type :=
| TypeEq (type_to_look : string)
| TypeIsin (type_to_look : list string).

Definition selects (flt : type_filter) (ty : string) : bool :=
  match flt with
  | TypeEq type_to_look => bool_decide (ty = type_to_look)
  | TypeIsin type_to_look => bool_decide (ty ∈ type_to_look)
  end.

Record schema := mk_schema {
  type_to_look : type_filter;
  column_names : list string;
  new_row : RosTime.t -> message -> result row }.

(** [["ranges_" + str(p) for p in range(0, 182)]] and its like. *)
Definition numbered (pre : string) (n : nat) : list string :=
  (fun p => pre +:+ pretty p) <$> seq 0 n.

Definition laser_columns : list string :=
  ([ "Time"; "header.seq"; "header.frame_id"; "angle_min"; "angle_max";
     "angle_increment"; "time_increment"; "scan_time"; "range_min";
     "range_max" ] ++ numbered "ranges_" 182) ++ numbered "intensities_" 182.

Definition vel_columns : list string :=
  [ "Time"; "linear.x"; "linear.y"; "linear.z";
    "angular.x"; "angular.y"; "angular.z" ].

Definition std_columns : list string := [ "Time"; "data" ].

Definition odometry_columns : list string :=
  [ "Time"; "header.seq"; "header.frame_id"; "child_frame_id";
    "pose.x"; "pose.y"; "pose.z";
    "orientation.x"; "orientation.y"; "orientation.z"; "orientation.w";
    "linear.x"; "linear.y"; "linear.z";
    "angular.x"; "angular.y"; "angular.z" ].

Definition wrench_columns : list string :=
  [ "Time"; "force.x"; "force.y"; "force.z";
    "torque.x"; "torque.y"; "torque.z" ].

Definition clock_columns : list string :=
  [ "Time"; "clock.secs"; "clock.nsecs" ].

Definition std_types : list string :=
  [ "std_msgs/Bool"; "'std_msgs/Byte"; "std_msgs/Float32"; "std_msgs/Float64";
    "std_msgs/Int8"; "std_msgs/Int16"; "std_msgs/Int32";
    "std_msgs/Uint8"; "std_msgs/Uint16"; "std_msgs/Uint32" ].

Definition laser_schema : schema :=
  mk_schema (TypeEq "sensor_msgs/LaserScan") laser_columns laser_row.
Definition vel_schema : schema :=
  mk_schema (TypeEq "geometry_msgs/Twist") vel_columns vel_row.
Definition std_schema : schema :=
  mk_schema (TypeIsin std_types) std_columns std_row.
Definition odometry_schema : schema :=
  mk_schema (TypeEq "nav_msgs/Odometry") odometry_columns odometry_row.
Definition wrench_schema : schema :=
  mk_schema (TypeEq "geometry_msgs/Wrench") wrench_columns wrench_row.
Definition clock_schema : schema :=
  mk_schema (TypeEq "rosgraph_msgs/Clock") clock_columns clock_row.

(** ** The file store and the write loops *)

(** A CSV file is kept as the rows handed to [writerow], oldest first.  The
    data folder is taken to exist and to be writable: opening a file for
    writing always succeeds. *)
Abbreviation files := (gmap string (list row)).

(** [s.replace(a, b)] for one-character [a] and [b]. *)
Fixpoint replace (a b : ascii) (s : string) : string :=
  match s with
  | EmptyString => EmptyString
  | String c s' => String (if Ascii.eqb c a then b else c) (replace a b s')
  end.

(** [self.datafolder + "/" + topic.replace("/", "-") + ".csv"] *)
Definition file_to_write (self : bagreader) (topic : string) : string :=
  datafolder self +:+ "/" +:+ replace "/" "-" topic +:+ ".csv".

(** [open(f, "w")]: creates or truncates. *)
Definition open_w (f : string) : M files unit :=
  modify (fun fs : files => <[f := []]> fs).

(** [writer.writerow(r)] on the writer of the file opened at [f]. *)
Definition writerow (f : string) (r : row) : M files unit :=
  modify (fun fs : files => alter (fun rows => rows ++ [r]) f fs).

Definition header_row (sch : schema) : row := CStr <$> column_names sch.

Section Extract.
Variable sch : schema.
Variable self : bagreader.

(** [for topic, msg, t in self.reader.read_messages(...)]: build the row,
    write it. *)
Fixpoint read_loop (f : string) (msgs : list record) : M files unit :=
  match msgs with
  | [] => mret tt
  | r :: rest =>
      row ← lift (new_row sch (rec_t r) (rec_msg r));
      writerow f row ;;
      read_loop f rest
  end.

(** The [with open(file_to_write, "w", newline='') as f] block of one
    topic; answers the path that is then appended to [csvlist]. *)
Definition write_topic (topic : string) : M files string :=
  let f := file_to_write self topic in
  open_w f ;;
  writerow f (header_row sch) ;;
  read_loop f (read_messages self topic) ;;
  mret f.

(** [for i in range(len(table_rows))] over [topics_to_read]. *)
Fixpoint topic_loop (topics_to_read : list string) (csvlist : list string)
  : M files (list string) :=
  match topics_to_read with
  | [] => mret csvlist
  | topic :: rest =>
      f ← write_topic topic;
      topic_loop rest (csvlist ++ [f])
  end.

Definition table_rows : list topic_row :=
  filter (fun r => selects (type_to_look sch) (Types r) = true)
         (topic_table self).

Definition topics_to_read : list string := Topics <$> table_rows.

Definition extract : M files (list string) :=
  topic_loop topics_to_read [].
End Extract.

Definition vel_data : bagreader -> M files (list string) := extract vel_schema.
Definition std_data : bagreader -> M files (list string) := extract std_schema.
Definition odometry_data : bagreader -> M files (list string) := extract odometry_schema.
Definition wrench_data : bagreader -> M files (list string) := extract wrench_schema.
Definition clock_data : bagreader -> M files (list string) := extract clock_schema.

Definition schemas : list schema :=
  [ laser_schema; vel_schema; std_schema; odometry_schema; wrench_schema;
    clock_schema ].

(** The methods that are declared but not written yet; [kwargs] are the
    keyword arguments of the call. *)
Definition compressed_images (self : bagreader) (kwargs : list (string * cell))
  : M files unit := raise (NotImplementedError "To be implemented").
Definition pointcloud_data (self : bagreader) (kwargs : list (string * cell))
  : M files unit := raise (NotImplementedError "To be implemented").
Definition animate_laser (self : bagreader)
  : M files unit := raise (NotImplementedError "To be implemented").
Definition animate_pointcloud (self : bagreader)
  : M files unit := raise (NotImplementedError "To be implemented").


(** ** What a run leaves in the store *)

(** [slots = [None]*n] filled from the start: the values, then the markers
    that were never overwritten. *)
Definition padded (n : nat) (values : list float) : list cell :=
  (CFloat <$> values) ++ replicate (n - length values) CNone.

(** The ten leading fields of a laser row. *)
Definition laser_scalars (t : RosTime.t) (m : LaserScan.t) : row :=
  [ CFloat (time_of t);
    CInt (Header.seq (LaserScan.header m));
    CStr (Header.frame_id (LaserScan.header m));
    CFloat (LaserScan.angle_min m);
    CFloat (LaserScan.angle_max m);
    CFloat (LaserScan.angle_increment m);
    CFloat (LaserScan.time_increment m);
    CFloat (LaserScan.scan_time m);
    CFloat (LaserScan.range_min m);
    CFloat (LaserScan.range_max m) ].

(** The result of a loop that stops at the first exception. *)
Definition outcome {A} (e : option exn) (a : A) : result A :=
  match e with
  | None => Ok a
  | Some e => Raise e
  end.

Section Written.
Variable sch : schema.

Definition row_of (r : record) : result row :=
  new_row sch (rec_t r) (rec_msg r).

(** A record converts when the row function answers a row for it. *)
Definition converts (r : record) : Prop := exists row, row_of r = Ok row.

(** The rows of the records before the first one that raises. *)
Fixpoint rows_written (msgs : list record) : list row :=
  match msgs with
  | [] => []
  | r :: rest =>
      match row_of r with
      | Ok row => row :: rows_written rest
      | Raise _ => []
      end
  end.

(** The exception of the first record that raises, if any. *)
Fixpoint first_error (msgs : list record) : option exn :=
  match msgs with
  | [] => None
  | r :: rest =>
      match row_of r with
      | Ok _ => first_error rest
      | Raise e => Some e
      end
  end.

(** The store after the given topics were all written without error. *)
Definition store_after (self : bagreader) (topics : list string) (fs : files)
  : files :=
  foldl (fun (acc : files) topic =>
           <[file_to_write self topic :=
               header_row sch :: rows_written (read_messages self topic)]> acc)
        fs topics.
End Written.

(** ** File names

    A ROS graph name is made of letters, digits, underscores and slashes;
    in particular it holds no hyphen. *)
Fixpoint hyphen_free (s : string) : bool :=
  match s with
  | EmptyString => true
  | String c s' => negb (Ascii.eqb c "-") && hyphen_free s'
  end.


(** ** The text of a file *)





Section CsvText.
(** [repr] of a float, which the writer uses for float fields. *)
Variable float_repr : float -> string.



End CsvText.

(** ** Tables for the statements about [std_data] *)

(** The ROS spellings that [std_types] misses. *)
Definition ros_unsigned_types : list string :=
  [ "std_msgs/Byte"; "std_msgs/UInt8"; "std_msgs/UInt16"; "std_msgs/UInt32";
    "std_msgs/UInt64" ].

(** The same reader with the topics of the given types left out of its
    topic table. *)
Definition without_types (tys : list string) (self : bagreader) : bagreader :=
  mk_bagreader (bagfile self) (reader self)
    (filter (fun r => Types r ∉ tys) (topic_table self))
    (datafolder self).

(** ** Sample bags *)

Definition stamped (topic : string) (secs nsecs : Z) (msg : message) : record :=
  mk_record topic msg (RosTime.mk secs nsecs).

Definition twist_of (lx ly lz ax ay az : float) : message :=
  MsgTwist (Twist.mk (Vector3.mk lx ly lz) (Vector3.mk ax ay az)).

(** The three velocity commands of the scenario, on a given topic. *)
Definition three_commands (topic : string) : list record :=
  [ stamped topic 10 0 (twist_of 1 0 0 0 0 0);
    stamped topic 10 500000000 (twist_of 2 0 0 0 0 1);
    stamped topic 11 0 (twist_of 0 0 0 0 0 0) ].

Definition cmd_vel_bag : bagreader :=
  mk_bagreader "run.bag" (three_commands "/cmd_vel")
    [ mk_topic_row "/cmd_vel" "geometry_msgs/Twist" 3 2 ] "run".



(** One scan of two beams and one intensity. *)
Definition short_scan : LaserScan.t :=
  LaserScan.mk (Header.mk 7 (RosTime.mk 20 0) "laser") 0 3 1 0 0 0 30
    [ 4%float; 5%float ] [ 6%float ].

Definition odom_msg : Odometry.t :=
  Odometry.mk (Header.mk 1 (RosTime.mk 5 0) "odom") "base_link"
    (PoseWithCovariance.mk
       (Pose.mk (Vector3.mk 1 2 3) (Quaternion.mk 0 0 0 1)) [])
    (TwistWithCovariance.mk
       (Twist.mk (Vector3.mk 4 5 6) (Vector3.mk 7 8 9)) []).

(** One odometry record on [/odom]. *)
Definition odom_bag : bagreader :=
  mk_bagreader "run.bag"
    [ stamped "/odom" 5 0 (MsgOdometry odom_msg) ]
    [ mk_topic_row "/odom" "nav_msgs/Odometry" 1 10 ] "run".

(** A bag whose only topic carries [std_msgs/UInt8] values. *)
Definition uint8_bag : bagreader :=
  mk_bagreader "run.bag"
    [ stamped "/level" 1 0 (MsgStd (CInt 200)) ]
    [ mk_topic_row "/level" "std_msgs/UInt8" 1 1 ] "run".




(** ** Data frames *)

(** A value held by a data frame: a scalar as read from a file, or a time
    stamp in nanoseconds since the epoch. *)
Inductive value : Type :=
| VCell (c : cell)
| VTimestamp (ns : Z).

(** A [pandas.DataFrame]: the labelled columns in their order, and the row
    labels with the name of the index.  Column labels are taken distinct. *)
Record DataFrame := mk_frame {
  columns : list (string * list value);
  index_name : option string;
  index : list value }.

Fixpoint get_column (key : string) (cols : list (string * list value))
  : option (list value) :=
  match cols with
  | [] => None
  | (k, vs) :: rest => if decide (k = key) then Some vs else get_column key rest
  end.

(** Assigning to a label replaces that column where it stands, or appends
    a new last column. *)
Fixpoint set_column (key : string) (vs : list value)
    (cols : list (string * list value)) : list (string * list value) :=
  match cols with
  | [] => [(key, vs)]
  | (k, old) :: rest =>
      if decide (k = key) then (k, vs) :: rest
      else (k, old) :: set_column key vs rest
  end.

Definition drop_column (key : string) (cols : list (string * list value))
  : list (string * list value) :=
  filter (fun c => c.1 <> key) cols.

(** [DataFrame.set_index(key)] with the default [drop=True]. *)
Definition with_index (key : string) (fr : DataFrame) : result DataFrame :=
  match get_column key (columns fr) with
  | Some vs => Ok (mk_frame (drop_column key (columns fr)) (Some key) vs)
  | None => Raise (KeyError key)
  end.

(** [DataFrame.drop([key], axis=1)]. *)
Definition without_column (key : string) (fr : DataFrame) : result DataFrame :=
  match get_column key (columns fr) with
  | Some _ =>
      Ok (mk_frame (drop_column key (columns fr)) (index_name fr) (index fr))
  | None => Raise (KeyError key)
  end.

(** A table without rows. *)
Definition zero_rows (fr : DataFrame) : Prop :=
  index fr = [] /\ Forall (fun c => c.2 = []) (columns fr).

(** ** The heap of data frames *)

(** Frames are Python objects: a variable holds a reference, and two
    variables may hold the same one. *)
Abbreviation heap := (gmap nat DataFrame).

(** A reference held by a Python variable is always allocated; the error
    branch only makes the function total. *)
Definition deref (df : nat) : M heap DataFrame := fun h =>
  match h !! df with
  | Some fr => (Ok fr, h)
  | None => (Raise (SystemError "dangling reference"), h)
  end.

Definition alloc (fr : DataFrame) : M heap nat := fun h =>
  let l := fresh (dom h) in (Ok l, <[l := fr]> h).

Definition store (df : nat) (fr : DataFrame) : M heap unit :=
  modify (fun h : heap => <[df := fr]> h).

(** [df.copy()], a deep copy. *)
Definition copy (df : nat) : M heap nat :=
  fr ← deref df; alloc fr.

(** [df[key]] *)
Definition getitem (df : nat) (key : string) : M heap (list value) :=
  fr ← deref df;
  match get_column key (columns fr) with
  | Some vs => mret vs
  | None => raise (KeyError key)
  end.

(** [df[key] = vs] *)
Definition setitem_column (df : nat) (key : string) (vs : list value)
  : M heap unit :=
  fr ← deref df;
  store df (mk_frame (set_column key vs (columns fr)) (index_name fr) (index fr)).

(** [df.set_index(key, inplace=True)] *)
Definition set_index_inplace (df : nat) (key : string) : M heap unit :=
  fr ← deref df; fr' ← lift (with_index key fr); store df fr'.

(** [df.set_index(key)] *)
Definition set_index (df : nat) (key : string) : M heap nat :=
  fr ← deref df; fr' ← lift (with_index key fr); alloc fr'.

(** [df.drop([key], axis=1, inplace=True)] *)
Definition frame_drop_inplace (df : nat) (key : string) : M heap unit :=
  fr ← deref df; fr' ← lift (without_column key fr); store df fr'.

(** [df.drop([key], axis=1)] *)
Definition frame_drop (df : nat) (key : string) : M heap nat :=
  fr ← deref df; fr' ← lift (without_column key fr); alloc fr'.

(** ** Global names *)

(** What a global name of a module is bound to.  Only a callable of one
    argument can serve as the function of [Series.apply]; the modules,
    classes and functions that [bagreader.py] binds cannot. *)
Inductive pyobj : Type :=
| PyCallable (f : value -> result value)
| PyModule (name : string)
| PyClass (name : string)
| PyFunction (name : string).

(** The names bound at the top level of [bagreader.py], by its imports and
    its definitions; none of the imports is a star import.  (The names that
    Python adds to every module all start with two underscores.) *)
Definition module_globals : gmap string pyobj :=
  list_to_map
    [ ("subprocess", PyModule "subprocess"); ("yaml", PyModule "yaml");
      ("os", PyModule "os"); ("time", PyModule "time");
      ("BytesIO", PyClass "io.BytesIO"); ("csv", PyModule "csv");
      ("rosbag", PyModule "rosbag");
      ("String", PyClass "std_msgs.msg.String");
      ("Header", PyClass "std_msgs.msg.Header");
      ("Twist", PyClass "geometry_msgs.msg.Twist");
      ("Pose", PyClass "geometry_msgs.msg.Pose");
      ("PoseStamped", PyClass "geometry_msgs.msg.PoseStamped");
      ("Path", PyClass "nav_msgs.msg.Path");
      ("Odometry", PyClass "nav_msgs.msg.Odometry");
      ("Point", PyClass "geometry_msgs.msg.Point");
      ("LaserScan", PyClass "sensor_msgs.msg.LaserScan");
      ("np", PyModule "numpy"); ("pd", PyModule "pandas");
      ("plt", PyModule "matplotlib.pyplot"); ("sea", PyModule "seaborn");
      ("bagreader", PyClass "bagreader"); ("find", PyFunction "find");
      ("timeindex", PyFunction "timeindex") ].

(** Reading a global name inside a function of the module; a name that the
    module does not bind, and that is no builtin, raises [NameError]. *)
Definition load_global (globals : gmap string pyobj) (name : string)
  : result pyobj :=
  match globals !! name with
  | Some o => Ok o
  | None => Raise (NameError name)
  end.

Definition call (func : pyobj) (v : value) : result value :=
  match func with
  | PyCallable f => f v
  | PyModule _ => Raise (TypeError "'module' object is not callable")
  | PyClass _ | PyFunction _ => Raise (TypeError "wrong number of arguments")
  end.

(** [series.apply(func)]: the function is called once per row. *)
Definition series_apply (series : list value) (func : pyobj) : result (list value) :=
  mapM (call func) series.

(** ** [timeindex] *)

Section TimeIndex.
(** [pd.to_datetime(_, unit='s')] on one value, from pandas. *)
Variable to_datetime : value -> result value.

(** The global names seen by the function. *)
Variable globals : gmap string pyobj.

(** [pd.DatetimeIndex(Time)] keeps the values. *)
Definition DatetimeIndex (Time : list value) : list value := Time.

Definition timeindex (df : nat) (inplace : bool) : M heap nat :=
  newdf ← (if inplace then mret df else copy df);
  time ← getitem df "Time";
  setitem_column newdf "Time" time ;;
  series ← getitem newdf "Time";
  dateparse ← lift (load_global globals "dateparse");
  clocktime ← lift (series_apply series dateparse);
  setitem_column newdf "ClockTime" clocktime ;;
  series ← getitem newdf "Time";
  Time ← lift (mapM to_datetime series);
  setitem_column newdf "Clock" (DatetimeIndex Time) ;;
  if inplace then
    set_index_inplace newdf "Clock" ;;
    frame_drop_inplace newdf "ClockTime" ;;
    mret newdf
  else
    newdf ← set_index newdf "Clock";
    newdf ← frame_drop newdf "ClockTime";
    mret newdf.
End TimeIndex.

(** The frames a successful call goes through: with the parsed dates added
    as [ClockTime], then with the time stamps added as [Clock], then with
    [Clock] made the index, and last with [ClockTime] dropped again. *)
Definition with_clocktime (fr : DataFrame) (parsed : list value) : DataFrame :=
  mk_frame (columns fr ++ [("ClockTime", parsed)]) (index_name fr) (index fr).
Definition with_clock (fr : DataFrame) (parsed stamps : list value) : DataFrame :=
  mk_frame ((columns fr ++ [("ClockTime", parsed)]) ++ [("Clock", stamps)])
    (index_name fr) (index fr).
Definition reindexed (fr : DataFrame) (parsed stamps : list value) : DataFrame :=
  mk_frame (columns fr ++ [("ClockTime", parsed)]) (Some "Clock") stamps.
Definition indexed (fr : DataFrame) (stamps : list value) : DataFrame :=
  mk_frame (columns fr) (Some "Clock") stamps.

(** A table without rows, with the columns of a velocity file. *)
Definition empty_vel_table : DataFrame :=
  mk_frame ((fun label => (label, [])) <$> vel_columns) None [].

(** A table of two rows with a [Time] and a [data] column. *)
Definition two_row_table : DataFrame :=
  mk_frame
    [ ("Time", [ VCell (CFloat 10); VCell (CFloat 10.5) ]);
      ("data", [ VCell (CInt 1); VCell (CInt 2) ]) ]
    None [ VCell (CInt 0); VCell (CInt 1) ].

(** ** [find], slices and the attributes set by [__init__] *)

(** [[i for i, ltr in enumerate(s) if ltr == ch]], counting from [i].
    Each [ltr] is a string of one character, compared with all of [ch]. *)
Fixpoint find_from (i : nat) (s ch : string) : list nat :=
  match s with
  | EmptyString => []
  | String ltr s' =>
      if decide (String ltr EmptyString = ch)
      then i :: find_from (S i) s' ch
      else find_from (S i) s' ch
  end.

Definition find (s ch : string) : list nat := find_from 0 s ch.

Fixpoint string_drop (n : nat) (s : string) : string :=
  match n, s with
  | S n', String _ s' => string_drop n' s'
  | _, _ => s
  end.

Fixpoint string_take (n : nat) (s : string) : string :=
  match n, s with
  | S n', String c s' => String c (string_take n' s')
  | _, _ => EmptyString
  end.

(** A bound of a slice of a sequence of length [len]: a negative bound
    counts from the end, and every bound is clamped to the sequence. *)
Definition slice_bound (len : nat) (i : Z) : nat :=
  if (i <? 0)%Z then Z.to_nat (Z.max 0 (Z.of_nat len + i))
  else Nat.min (Z.to_nat i) len.

(** [s[start:stop]]; [None] is an omitted bound. *)
Definition slice (s : string) (start stop : option Z) : string :=
  let len := String.length s in
  let lo := from_option (slice_bound len) 0 start in
  let hi := from_option (slice_bound len) len stop in
  string_take (hi - lo) (string_drop lo s).

Definition no_such_index : exn := IndexError "list index out of range".

(** [l[i]] on a Python list: a negative index counts from the end, an index
    outside the list raises. *)
Definition list_getitem {A} (l : list A) (i : Z) : result A :=
  let j := if (i <? 0)%Z then (Z.of_nat (length l) + i)%Z else i in
  if (j <? 0)%Z then Raise no_such_index
  else match l !! Z.to_nat j with
       | Some a => Ok a
       | None => Raise no_such_index
       end.

(** [self.filename] and [self.dir]. *)
Record names := mk_names { filename : string; dir : string }.

(** The split of the bag file name at the start of [__init__]. *)
Definition init_names (bagfile : string) : result names :=
  let slashindices := find bagfile "/" in
  if decide (0 < length slashindices) then
    stop ← list_getitem slashindices (-1);
    let filename := slice bagfile (Some (Z.of_nat stop)) None in
    first ← list_getitem slashindices 0;
    stop ← list_getitem slashindices (-1);
    let dir := slice bagfile (Some (Z.of_nat first)) (Some (Z.of_nat stop)) in
    Ok (mk_names filename dir)
  else Ok (mk_names bagfile "./").

(** [self.datafolder = bagfile[0:-4]] *)
Definition init_datafolder (bagfile : string) : string :=
  slice bagfile (Some 0%Z) (Some (-4)%Z).

(** One value of [info.topics], as [rosbag] reports it.  The frequency,
    which no method reads, is kept as a float. *)
Record TopicTuple := mk_topic_tuple {
  msg_type : string;
  message_count : Z;
  connections : Z;
  frequency : float }.

(** The bag that [rosbag.Bag(bagfile)] opened: the topics of
    [get_type_and_topic_info()], in the order of the dictionary, and the
    messages. *)
Record Bag := mk_bag {
  bag_topics : list (string * TopicTuple);
  bag_messages : list record }.

(** [self.topic_table]: the four parallel lists zipped into lines. *)
Definition init_topic_table (topics : list (string * TopicTuple))
  : list topic_row :=
  let topic_tuple := snd <$> topics in
  let keys := fst <$> topics in
  let message_types := msg_type <$> topic_tuple in
  let n_messages := message_count <$> topic_tuple in
  let frequency_ := frequency <$> topic_tuple in
  (fun q => mk_topic_row q.1.1.1 q.1.1.2 q.1.2 q.2)
    <$> zip (zip (zip keys message_types) n_messages) frequency_.

(** The attributes set by [__init__] once the bag is open: the names, and
    those the extraction methods read.  The creation of the data folder is
    left to the caller of this function. *)
Definition bagreader_init (bagfile : string) (bag : Bag)
  : result (names * bagreader) :=
  nm ← init_names bagfile;
  Ok (nm, mk_bagreader bagfile (bag_messages bag)
            (init_topic_table (bag_topics bag)) (init_datafolder bagfile)).

(** No slash in a string. *)
Fixpoint slash_free (s : string) : bool :=
  match s with
  | EmptyString => true
  | String c s' => negb (Ascii.eqb c "/") && slash_free s'
  end.

(** ** The course of one extraction call *)

Section Course.
Variable sch : schema.
Variable self : bagreader.

(** The topics whose file the call opens: all up to the first topic with a
    record that raises, that topic included. *)
Fixpoint reached (topics : list string) : list string :=
  match topics with
  | [] => []
  | topic :: rest =>
      match first_error sch (read_messages self topic) with
      | None => topic :: reached rest
      | Some _ => [topic]
      end
  end.

(** The exception that ends the call, if any. *)
Fixpoint loop_error (topics : list string) : option exn :=
  match topics with
  | [] => None
  | topic :: rest =>
      match first_error sch (read_messages self topic) with
      | None => loop_error rest
      | Some e => Some e
      end
  end.
End Course.

(** A bag named by an absolute path, with one velocity topic. *)
Definition home_bag : Bag :=
  mk_bag [ ("/cmd_vel", mk_topic_tuple "geometry_msgs/Twist" 3 1 2);
           ("/level", mk_topic_tuple "std_msgs/UInt8" 1 1 1) ]
         (three_commands "/cmd_vel").

(** The global names of the module with [dateparse] bound besides, to a
    function that answers its argument. *)
Definition patched_globals : gmap string pyobj :=
  <["dateparse" := PyCallable (fun v => Ok v)]> module_globals.
(** * Properties *)

(** ** The monad *)

Lemma M_bind_ok {S A B} (m : M S A) (k : A -> M S B) s a s' :
  m s = (Ok a, s') -> (m ≫= k) s = k a s'.
Proof. intros E. unfold mbind, M_bind. by rewrite E. Qed.

Lemma M_bind_raise {S A B} (m : M S A) (k : A -> M S B) s e s' :
  m s = (Raise e, s') -> (m ≫= k) s = (Raise e, s').
Proof. intros E. unfold mbind, M_bind. by rewrite E. Qed.

(** ** Filling the fixed slots *)

Lemma setitem_lt {A} (l : list A) i v :
  i < length l -> setitem l i v = Ok (<[i := v]> l).
Proof. intros H. unfold setitem. by rewrite decide_True. Qed.

Lemma setitem_ge {A} (l : list A) i v :
  length l <= i -> setitem l i v = Raise out_of_range.
Proof. intros H. unfold setitem. by rewrite decide_False by lia. Qed.

Lemma fill_slots_fits values : forall slots ir,
  ir + length values <= length slots ->
  fill_slots slots ir values =
    Ok (take ir slots ++ (CFloat <$> values) ++ drop (ir + length values) slots).
Proof.
  induction values as [|ran rest IH]; intros slots ir Hlen; simpl in *.
  - rewrite Nat.add_0_r. by rewrite take_drop.
  - rewrite setitem_lt by lia. simpl.
    rewrite IH by (rewrite length_insert; lia). f_equal.
    rewrite drop_insert_lt by lia.
    rewrite insert_take_drop by lia.
    replace (S ir) with (ir + 1) at 1 by lia.
    rewrite (take_app_add' _ _ ir 1) by (rewrite length_take; lia).
    rewrite <- app_assoc. simpl.
    by replace (ir + S (length rest)) with (S (ir + length rest)) by lia.
Qed.

Lemma fill_slots_overflow values : forall slots ir,
  ir <= length slots ->
  length slots < ir + length values ->
  fill_slots slots ir values = Raise out_of_range.
Proof.
  induction values as [|ran rest IH]; intros slots ir Hir Hlen; simpl in *.
  - lia.
  - destruct (decide (ir < length slots)) as [Hlt|Hge].
    + rewrite setitem_lt by done. simpl. apply IH.
      all: rewrite length_insert; lia.
    + by rewrite setitem_ge by lia.
Qed.

Lemma fill_fresh_slots n values :
  length values <= n ->
  fill_slots (replicate n CNone) 0 values = Ok (padded n values).
Proof.
  intros H. rewrite fill_slots_fits by (rewrite length_replicate; lia).
  rewrite take_0, drop_replicate. done.
Qed.

Lemma padded_length n values : length values <= n -> length (padded n values) = n.
Proof.
  intros H. unfold padded.
  rewrite length_app, length_fmap, length_replicate. lia.
Qed.

(** ** The write loops *)

Section ExtractFacts.
Variable sch : schema.
Variable self : bagreader.

Lemma first_error_None msgs :
  first_error sch msgs = None <-> Forall (converts sch) msgs.
Proof.
  induction msgs as [|r rest IH]; simpl.
  - split; [constructor | done].
  - unfold converts at 1. destruct (row_of sch r) as [row|e] eqn:E.
    + rewrite IH. split.
      * intros H. constructor; [by exists row | done].
      * by inversion 1.
    + split; [done|]. inversion 1 as [|? ? [row Hrow] ?]; subst.
      unfold converts in *. congruence.
Qed.

Lemma rows_written_convert msgs row :
  row ∈ rows_written sch msgs ->
  exists r, r ∈ msgs /\ row_of sch r = Ok row.
Proof.
  induction msgs as [|r rest IH]; simpl.
  - by intros ?%elem_of_nil.
  - destruct (row_of sch r) as [row'|e] eqn:E.
    + intros [->|Hin]%elem_of_cons.
      * exists r. split; [left | done].
      * destruct (IH Hin) as (r' & ? & ?). exists r'. split; [by right | done].
    + by intros ?%elem_of_nil.
Qed.

Lemma rows_written_all msgs rows :
  Forall2 (fun r row => row_of sch r = Ok row) msgs rows ->
  rows_written sch msgs = rows /\ first_error sch msgs = None.
Proof.
  induction 1 as [|r row msgs rows Hr _ [IH1 IH2]]; simpl; [done|].
  by rewrite Hr, IH1, IH2.
Qed.


(** The read loop appends, in order, the row of every record up to the
    first that raises, and answers that exception. *)
Lemma read_loop_spec f msgs : forall (fs : files) pre,
  fs !! f = Some pre ->
  read_loop sch f msgs fs =
    (outcome (first_error sch msgs) tt,
     <[f := pre ++ rows_written sch msgs]> fs).
Proof.
  induction msgs as [|r rest IH]; intros fs pre Hf; simpl.
  - rewrite app_nil_r, insert_id by done. done.
  - unfold mbind at 1, M_bind, lift. fold (row_of sch r).
    destruct (row_of sch r) as [row|e]; simpl.
    + unfold mbind, M_bind, writerow, modify.
      erewrite IH; last first.
      { rewrite lookup_alter_eq, Hf. done. }
      f_equal. rewrite <- app_assoc. simpl.
      apply map_eq. intros k. destruct (decide (f = k)) as [->|Hne].
      * by rewrite !lookup_insert_eq.
      * by rewrite !lookup_insert_ne, lookup_alter_ne by done.
    + rewrite app_nil_r, insert_id by done. done.
Qed.

(** One topic: the file is created anew, holds the header first and then
    the rows written before any exception. *)
Lemma write_topic_spec topic (fs : files) :
  write_topic sch self topic fs =
    (outcome (first_error sch (read_messages self topic))
             (file_to_write self topic),
     <[file_to_write self topic :=
         header_row sch :: rows_written sch (read_messages self topic)]> fs).
Proof.
  unfold write_topic, open_w, writerow, modify.
  unfold mbind, M_bind.
  erewrite read_loop_spec; last first.
  { rewrite lookup_alter_eq, lookup_insert_eq. done. }
  simpl.
  assert (forall (rows : list row) (m : files) (f : string) (h : row),
    <[f := h :: rows]> (alter (fun rows => rows ++ [h]) f (<[f := []]> m))
    = <[f := h :: rows]> m) as Hstore.
  { intros rows m f h. apply map_eq. intros k.
    destruct (decide (f = k)) as [->|Hne].
    - by rewrite !lookup_insert_eq.
    - by rewrite !lookup_insert_ne, lookup_alter_ne, lookup_insert_ne by done. }
  rewrite Hstore.
  by destruct (first_error sch (read_messages self topic)).
Qed.

Lemma store_after_snoc topics topic (fs : files) :
  store_after sch self (topics ++ [topic]) fs =
    <[file_to_write self topic :=
        header_row sch :: rows_written sch (read_messages self topic)]>
      (store_after sch self topics fs).
Proof. unfold store_after. by rewrite foldl_snoc. Qed.

(** All listed topics convert: every file is written, in order, and the
    paths are appended to [csvlist] in the same order. *)
Lemma topic_loop_ok topics : forall csvlist (fs : files),
  (forall topic, topic ∈ topics ->
     first_error sch (read_messages self topic) = None) ->
  topic_loop sch self topics csvlist fs =
    (Ok (csvlist ++ (file_to_write self <$> topics)),
     store_after sch self topics fs).
Proof.
  induction topics as [|topic rest IH]; intros csvlist fs Hall; simpl.
  - by rewrite app_nil_r.
  - unfold mbind, M_bind. rewrite write_topic_spec.
    rewrite (Hall topic) by left. simpl.
    rewrite IH by (intros ? ?; apply Hall; by right).
    by rewrite <- app_assoc.
Qed.


(** What a path holds after the topics were written: the file of the last
    topic written to that path. *)
Lemma store_after_lookup topics : forall (fs : files) topic,
  topic ∈ topics ->
  exists topic', topic' ∈ topics
    /\ file_to_write self topic' = file_to_write self topic
    /\ store_after sch self topics fs !! file_to_write self topic =
         Some (header_row sch
               :: rows_written sch (read_messages self topic')).
Proof.
  induction topics as [|t rest IH] using rev_ind; intros fs topic Hin.
  - by apply elem_of_nil in Hin.
  - rewrite store_after_snoc.
    destruct (decide (file_to_write self t = file_to_write self topic))
      as [Heq|Hne].
    + exists t. rewrite <- Heq, lookup_insert_eq.
      split; [apply elem_of_app; right; left | done].
    + apply elem_of_app in Hin as [Hin|Hin%list_elem_of_singleton];
        [|congruence].
      destruct (IH fs topic Hin) as (t' & Hin' & Hfile & Hlook).
      exists t'. rewrite lookup_insert_ne by done.
      split; [apply elem_of_app; by left | done].
Qed.

Lemma store_after_other topics : forall (fs : files) path,
  (forall topic, topic ∈ topics -> file_to_write self topic <> path) ->
  store_after sch self topics fs !! path = fs !! path.
Proof.
  induction topics as [|t rest IH] using rev_ind; intros fs path Hne.
  - done.
  - rewrite store_after_snoc, lookup_insert_ne.
    + apply IH. intros ? ?. apply Hne, elem_of_app. by left.
    + apply Hne, elem_of_app. right. left.
Qed.

Lemma store_after_lookup_unique topics (fs : files) topic :
  topic ∈ topics ->
  (forall topic', topic' ∈ topics ->
     file_to_write self topic' = file_to_write self topic ->
     topic' = topic) ->
  store_after sch self topics fs !! file_to_write self topic =
    Some (header_row sch :: rows_written sch (read_messages self topic)).
Proof.
  intros Hin Huniq.
  destruct (store_after_lookup topics fs topic Hin)
    as (topic' & Hin' & Hfile & Hlook).
  by rewrite (Huniq topic' Hin' Hfile) in Hlook.
Qed.

Lemma extract_ok (fs : files) :
  (forall topic, topic ∈ topics_to_read sch self ->
     Forall (converts sch) (read_messages self topic)) ->
  extract sch self fs =
    (Ok (file_to_write self <$> topics_to_read sch self),
     store_after sch self (topics_to_read sch self) fs).
Proof.
  intros Hall. unfold extract. rewrite topic_loop_ok.
  - done.
  - intros topic Hin. by apply first_error_None, Hall.
Qed.
End ExtractFacts.

(** ** File names *)

Lemma string_length_app (s t : string) :
  String.length (s +:+ t) = String.length s + String.length t.
Proof.
  induction s as [|c s IH]; [done|].
  change (S (String.length (s +:+ t)) = S (String.length s + String.length t)).
  by rewrite IH.
Qed.

Lemma string_app_cancel_r (s1 s2 t : string) :
  s1 +:+ t = s2 +:+ t -> s1 = s2.
Proof.
  revert s2. induction s1 as [|c1 s1 IH]; intros [|c2 s2] H.
  - done.
  - apply (f_equal String.length) in H.
    change (String.length t = S (String.length (s2 +:+ t))) in H.
    rewrite string_length_app in H. lia.
  - apply (f_equal String.length) in H.
    change (S (String.length (s1 +:+ t)) = String.length t) in H.
    rewrite string_length_app in H. lia.
  - change (String c1 (s1 +:+ t) = String c2 (s2 +:+ t)) in H.
    injection H as -> H. f_equal. by apply IH.
Qed.

Lemma replace_slash_inj (s1 s2 : string) :
  hyphen_free s1 = true -> hyphen_free s2 = true ->
  replace "/" "-" s1 = replace "/" "-" s2 -> s1 = s2.
Proof.
  revert s2. induction s1 as [|c1 s1 IH]; intros [|c2 s2] H1 H2 H;
    try done.
  simpl in H1, H2, H.
  apply andb_prop in H1 as [Hc1 H1]. apply andb_prop in H2 as [Hc2 H2].
  apply negb_true_iff, Ascii.eqb_neq in Hc1, Hc2.
  injection H as Hc H. f_equal; [|by apply IH].
  destruct (Ascii.eqb_spec c1 "/") as [->|Hs1];
    destruct (Ascii.eqb_spec c2 "/") as [->|Hs2]; congruence.
Qed.

(** Distinct ROS topic names are written to distinct files. *)
Lemma file_to_write_inj self topic1 topic2 :
  hyphen_free topic1 = true -> hyphen_free topic2 = true ->
  file_to_write self topic1 = file_to_write self topic2 -> topic1 = topic2.
Proof.
  intros H1 H2 H. unfold file_to_write in H.
  apply (inj (String.app _)) in H. apply (inj (String.app _)) in H.
  apply string_app_cancel_r in H. by apply replace_slash_inj.
Qed.

(** ** The row functions *)


Lemma laser_row_fits t m :
  length (LaserScan.ranges m) <= 182 ->
  length (LaserScan.intensities m) <= 182 ->
  laser_row t (MsgLaserScan m) =
    Ok ((laser_scalars t m ++ padded 182 (LaserScan.ranges m))
        ++ padded 182 (LaserScan.intensities m)).
Proof.
  intros Hr Hi. unfold laser_row.
  rewrite (fill_fresh_slots 182 (LaserScan.ranges m)) by done.
  rewrite (fill_fresh_slots 182 (LaserScan.intensities m)) by done.
  done.
Qed.

Lemma laser_row_overflow t m :
  182 < length (LaserScan.ranges m) \/ 182 < length (LaserScan.intensities m) ->
  laser_row t (MsgLaserScan m) = Raise out_of_range.
Proof.
  intros H. unfold laser_row.
  destruct (decide (length (LaserScan.ranges m) <= 182)) as [Hr|Hr].
  - destruct H as [H|H]; [lia|].
    rewrite (fill_fresh_slots 182 (LaserScan.ranges m)) by done. simpl.
    rewrite (fill_slots_overflow (LaserScan.intensities m));
      [done | rewrite ?length_replicate; simpl; lia ..].
  - rewrite (fill_slots_overflow (LaserScan.ranges m));
      [done | rewrite ?length_replicate; simpl; lia ..].
Qed.

(** A scan converts exactly when both arrays fit the 182 slots. *)
Lemma laser_row_total t m :
  (exists row, laser_row t (MsgLaserScan m) = Ok row) <->
  length (LaserScan.ranges m) <= 182 /\ length (LaserScan.intensities m) <= 182.
Proof.
  split.
  - intros [row Hrow].
    destruct (decide (length (LaserScan.ranges m) <= 182)) as [Hr|Hr];
      destruct (decide (length (LaserScan.intensities m) <= 182)) as [Hi|Hi];
      [done | | | ];
      rewrite laser_row_overflow in Hrow by lia; discriminate.
  - intros [Hr Hi]. eexists. by apply laser_row_fits.
Qed.






(** The extractors other than [odometry_data] write rows as wide as their
    header. *)
Lemma row_width sch t msg row :
  sch ∈ [laser_schema; vel_schema; std_schema; wrench_schema; clock_schema] ->
  new_row sch t msg = Ok row ->
  length row = length (column_names sch).
Proof.
  intros Hsch Hrow.
  repeat (apply elem_of_cons in Hsch as [->|Hsch]);
    [ .. | by apply elem_of_nil in Hsch ]; simpl in Hrow.
  - destruct msg; try discriminate.
    destruct (laser_row_total t m) as [Hfit _].
    destruct Hfit as [Hr Hi]; [by eexists|].
    rewrite laser_row_fits in Hrow by done. injection Hrow as <-.
    simpl length. rewrite !length_app, !padded_length by done. done.
  - destruct msg; try discriminate. by injection Hrow as <-.
  - destruct msg; try discriminate. by injection Hrow as <-.
  - destruct msg; try discriminate. by injection Hrow as <-.
  - destruct msg; try discriminate. by injection Hrow as <-.
Qed.

(** ** The text of a file *)



(** The file of a scan topic whose arrays all fit: below the header, one
    row per scan in the order of the bag, each padded from its own scan. *)
Lemma laser_topic_rows self topic (fs : files) (scans : list (LaserScan.t * RosTime.t)) :
  read_messages self topic =
    (fun s => mk_record topic (MsgLaserScan s.1) s.2) <$> scans ->
  Forall (fun s => length (LaserScan.ranges s.1) <= 182
                   /\ length (LaserScan.intensities s.1) <= 182) scans ->
  write_topic laser_schema self topic fs =
    (Ok (file_to_write self topic),
     <[file_to_write self topic :=
         header_row laser_schema
         :: ((fun s => (laser_scalars s.2 s.1
                        ++ padded 182 (LaserScan.ranges s.1))
                       ++ padded 182 (LaserScan.intensities s.1)) <$> scans)]>
       fs).
Proof.
  intros Hmsgs Hfit. rewrite write_topic_spec, Hmsgs.
  destruct (rows_written_all laser_schema
              ((fun s => mk_record topic (MsgLaserScan s.1) s.2) <$> scans)
              ((fun s => (laser_scalars s.2 s.1
                          ++ padded 182 (LaserScan.ranges s.1))
                         ++ padded 182 (LaserScan.intensities s.1)) <$> scans))
    as [-> ->]; [|done].
  clear Hmsgs.
  induction Hfit as [|[m t] scans [Hr Hi] _ IH]; simpl; constructor.
  - by apply laser_row_fits.
  - apply IH.
Qed.

(** ** The course of an extraction call *)

Section CourseFacts.
Variable sch : schema.
Variable self : bagreader.

(** Every call of the topic loop, returning or raising: its answer and the
    store it leaves. *)
Lemma topic_loop_course topics : forall csvlist (fs : files),
  topic_loop sch self topics csvlist fs =
    (outcome (loop_error sch self topics)
             (csvlist ++ (file_to_write self <$> topics)),
     store_after sch self (reached sch self topics) fs).
Proof.
  induction topics as [|topic rest IH]; intros csvlist fs; simpl.
  - by rewrite app_nil_r.
  - unfold mbind, M_bind. rewrite write_topic_spec.
    destruct (first_error sch (read_messages self topic)) as [e|]; simpl.
    + done.
    + rewrite IH. by rewrite <- app_assoc.
Qed.

Lemma reached_subseteq topics topic :
  topic ∈ reached sch self topics -> topic ∈ topics.
Proof.
  induction topics as [|t rest IH]; simpl; [done|].
  destruct (first_error sch (read_messages self t)).
  - intros ->%list_elem_of_singleton. left.
  - intros [->|Hin]%elem_of_cons; [left | right; by apply IH].
Qed.

(** What a written path holds depends on the topics written, not on the
    store before. *)
Lemma store_after_covered topics : forall (fs1 fs2 : files) path,
  path ∈ (file_to_write self <$> topics) ->
  store_after sch self topics fs1 !! path
  = store_after sch self topics fs2 !! path.
Proof.
  induction topics as [|t rest IH] using rev_ind; intros fs1 fs2 path Hin.
  - by apply elem_of_nil in Hin.
  - rewrite !store_after_snoc.
    destruct (decide (file_to_write self t = path)) as [<-|Hne].
    + by rewrite !lookup_insert_eq.
    + rewrite !lookup_insert_ne by done. apply IH.
      rewrite fmap_app in Hin.
      apply elem_of_app in Hin as [Hin|Hin%list_elem_of_singleton];
        [done | congruence].
Qed.

Lemma store_after_again topics (fs : files) :
  store_after sch self topics (store_after sch self topics fs)
  = store_after sch self topics fs.
Proof.
  apply map_eq. intros path.
  destruct (decide (path ∈ (file_to_write self <$> topics))) as [Hin|Hnin].
  - by apply store_after_covered.
  - rewrite !store_after_other; [done | |];
      intros topic Htopic <-; apply Hnin, list_elem_of_fmap; eauto.
Qed.

Lemma rows_written_in_order msgs :
  first_error sch msgs = None ->
  Forall2 (fun r row => new_row sch (rec_t r) (rec_msg r) = Ok row)
          msgs (rows_written sch msgs).
Proof.
  induction msgs as [|r rest IH]; simpl; [constructor|].
  unfold row_of at 1 2. destruct (new_row sch (rec_t r) (rec_msg r)) eqn:E;
    [|done].
  intros Hrest. constructor; [done | by apply IH].
Qed.




(** The topics reached are those with no raising topic before them. *)
Lemma reached_elem topics topic :
  topic ∈ reached sch self topics <->
  exists before after,
    topics = before ++ topic :: after
    /\ forall t, t ∈ before -> first_error sch (read_messages self t) = None.
Proof.
  induction topics as [|t rest IH]; simpl.
  - split; [by intros ?%elem_of_nil|].
    intros (before & after & Heq & _). by destruct before.
  - destruct (first_error sch (read_messages self t)) as [e|] eqn:Ht.
    + rewrite list_elem_of_singleton. split.
      * intros ->. exists [], rest. split; [done|]. by intros ? ?%elem_of_nil.
      * intros ([|t' before] & after & Heq & Hok); simplify_eq/=; [done|].
        rewrite (Hok t') in Ht by left. discriminate.
    + rewrite elem_of_cons, IH. split.
      * intros [->|(before & after & -> & Hok)].
        -- exists [], rest. split; [done|]. by intros ? ?%elem_of_nil.
        -- exists (t :: before), after. split; [done|].
           intros t' [->|Hin]%elem_of_cons; [done | by apply Hok].
      * intros ([|t' before] & after & Heq & Hok); simplify_eq/=;
          [by left|].
        right. exists before, after. split; [done|].
        intros ? ?. apply Hok. by right.
Qed.



End CourseFacts.

(** ** Data frames and the heap *)

Lemma get_set_column key vs cols :
  get_column key (set_column key vs cols) = Some vs.
Proof.
  induction cols as [|[k old] rest IH]; simpl.
  - by rewrite decide_True.
  - destruct (decide (k = key)) as [->|Hne]; simpl.
    + by rewrite decide_True.
    + by rewrite decide_False.
Qed.

Lemma get_set_column_ne key key' vs cols :
  key <> key' ->
  get_column key' (set_column key vs cols) = get_column key' cols.
Proof.
  intros Hne. induction cols as [|[k old] rest IH]; simpl.
  - by rewrite decide_False.
  - destruct (decide (k = key)) as [->|Hk]; simpl.
    + by rewrite !decide_False.
    + destruct (decide (k = key')); [done | apply IH].
Qed.

Lemma set_column_same key vs cols :
  get_column key cols = Some vs -> set_column key vs cols = cols.
Proof.
  induction cols as [|[k old] rest IH]; simpl; [done|].
  destruct (decide (k = key)) as [->|Hne].
  - by intros [= ->].
  - intros H. by rewrite IH.
Qed.

Lemma set_column_fresh key vs cols :
  get_column key cols = None -> set_column key vs cols = cols ++ [(key, vs)].
Proof.
  induction cols as [|[k old] rest IH]; simpl; [done|].
  destruct (decide (k = key)) as [->|Hne]; [done|].
  intros H. by rewrite IH.
Qed.

Lemma drop_column_absent key cols :
  get_column key cols = None -> drop_column key cols = cols.
Proof.
  unfold drop_column.
  induction cols as [|[k old] rest IH]; simpl; [done|].
  destruct (decide (k = key)) as [->|Hne]; [done|].
  intros H. rewrite filter_cons_True by done. by rewrite IH.
Qed.

Lemma drop_column_snoc key vs cols :
  get_column key cols = None -> drop_column key (cols ++ [(key, vs)]) = cols.
Proof.
  intros H. unfold drop_column. rewrite filter_app.
  fold (drop_column key cols). rewrite drop_column_absent by done.
  rewrite filter_cons_False by (simpl; intros Hn; by apply Hn).
  by rewrite filter_nil, app_nil_r.
Qed.

Lemma get_column_snoc_ne key key' vs cols :
  key <> key' ->
  get_column key' (cols ++ [(key, vs)]) = get_column key' cols.
Proof.
  intros Hne. induction cols as [|[k old] rest IH]; simpl.
  - by rewrite decide_False.
  - by destruct (decide (k = key')).
Qed.

Lemma deref_allocated (h : heap) df fr :
  h !! df = Some fr -> deref df h = (Ok fr, h).
Proof. intros H. unfold deref. by rewrite H. Qed.

Lemma getitem_column (h : heap) df fr key vs :
  h !! df = Some fr -> get_column key (columns fr) = Some vs ->
  getitem df key h = (Ok vs, h).
Proof.
  intros Hdf Hcol. unfold getitem.
  rewrite (M_bind_ok _ _ _ _ _ (deref_allocated _ _ _ Hdf)). by rewrite Hcol.
Qed.

Lemma getitem_missing (h : heap) df fr key :
  h !! df = Some fr -> get_column key (columns fr) = None ->
  getitem df key h = (Raise (KeyError key), h).
Proof.
  intros Hdf Hcol. unfold getitem.
  rewrite (M_bind_ok _ _ _ _ _ (deref_allocated _ _ _ Hdf)). by rewrite Hcol.
Qed.

Lemma setitem_column_allocated (h : heap) df fr key vs :
  h !! df = Some fr ->
  setitem_column df key vs h =
    (Ok tt,
     <[df := mk_frame (set_column key vs (columns fr)) (index_name fr)
               (index fr)]> h).
Proof.
  intros Hdf. unfold setitem_column.
  by rewrite (M_bind_ok _ _ _ _ _ (deref_allocated _ _ _ Hdf)).
Qed.

(** Assigning a column to itself leaves the heap as it was. *)
Lemma setitem_column_same (h : heap) df fr key vs :
  h !! df = Some fr -> get_column key (columns fr) = Some vs ->
  setitem_column df key vs h = (Ok tt, h).
Proof.
  intros Hdf Hcol. rewrite (setitem_column_allocated h df fr) by done.
  rewrite set_column_same by done. destruct fr. simpl.
  by rewrite insert_id.
Qed.

Lemma fresh_not_allocated (h : heap) df fr :
  h !! df = Some fr -> fresh (dom h) <> df.
Proof.
  intros Hdf Heq. apply (is_fresh (dom h)). rewrite Heq.
  apply elem_of_dom. by eexists.
Qed.

Lemma copy_allocated (h : heap) df fr :
  h !! df = Some fr ->
  copy df h = (Ok (fresh (dom h)), <[fresh (dom h) := fr]> h).
Proof.
  intros Hdf. unfold copy.
  by rewrite (M_bind_ok _ _ _ _ _ (deref_allocated _ _ _ Hdf)).
Qed.

Lemma set_index_inplace_allocated (h : heap) df fr fr' key :
  h !! df = Some fr -> with_index key fr = Ok fr' ->
  set_index_inplace df key h = (Ok tt, <[df := fr']> h).
Proof.
  intros Hdf Hfr. unfold set_index_inplace.
  rewrite (M_bind_ok _ _ _ _ _ (deref_allocated _ _ _ Hdf)).
  unfold lift. rewrite Hfr. by erewrite M_bind_ok by reflexivity.
Qed.

Lemma frame_drop_inplace_allocated (h : heap) df fr fr' key :
  h !! df = Some fr -> without_column key fr = Ok fr' ->
  frame_drop_inplace df key h = (Ok tt, <[df := fr']> h).
Proof.
  intros Hdf Hfr. unfold frame_drop_inplace.
  rewrite (M_bind_ok _ _ _ _ _ (deref_allocated _ _ _ Hdf)).
  unfold lift. rewrite Hfr. by erewrite M_bind_ok by reflexivity.
Qed.

Lemma set_index_allocated (h : heap) df fr fr' key :
  h !! df = Some fr -> with_index key fr = Ok fr' ->
  set_index df key h = (Ok (fresh (dom h)), <[fresh (dom h) := fr']> h).
Proof.
  intros Hdf Hfr. unfold set_index.
  rewrite (M_bind_ok _ _ _ _ _ (deref_allocated _ _ _ Hdf)).
  unfold lift. rewrite Hfr. by erewrite M_bind_ok by reflexivity.
Qed.

Lemma frame_drop_allocated (h : heap) df fr fr' key :
  h !! df = Some fr -> without_column key fr = Ok fr' ->
  frame_drop df key h = (Ok (fresh (dom h)), <[fresh (dom h) := fr']> h).
Proof.
  intros Hdf Hfr. unfold frame_drop.
  rewrite (M_bind_ok _ _ _ _ _ (deref_allocated _ _ _ Hdf)).
  unfold lift. rewrite Hfr. by erewrite M_bind_ok by reflexivity.
Qed.

Lemma dateparse_unbound : module_globals !! "dateparse" = None.
Proof. vm_compute. reflexivity. Qed.

(** The call always stops where it reads the global name [dateparse], which
    the module never binds; up to there it has at most made the copy. *)
Lemma timeindex_stops_at_dateparse to_datetime (h : heap) df fr vs inplace :
  h !! df = Some fr ->
  get_column "Time" (columns fr) = Some vs ->
  timeindex to_datetime module_globals df inplace h =
    (Raise (NameError "dateparse"),
     if inplace then h else <[fresh (dom h) := fr]> h).
Proof.
  intros Hdf Htime. unfold timeindex. destruct inplace.
  - rewrite (M_bind_ok _ _ h df h) by done.
    rewrite (M_bind_ok _ _ _ _ _ (getitem_column _ _ _ _ _ Hdf Htime)).
    rewrite (M_bind_ok _ _ _ _ _ (setitem_column_same _ _ _ _ _ Hdf Htime)).
    rewrite (M_bind_ok _ _ _ _ _ (getitem_column _ _ _ _ _ Hdf Htime)).
    apply M_bind_raise. unfold lift, load_global.
    by rewrite dateparse_unbound.
  - pose proof (fresh_not_allocated h df fr Hdf) as Hfresh.
    set (l := fresh (dom h)) in *.
    assert ((<[l := fr]> h : heap) !! df = Some fr) as Hdf'
      by (by rewrite lookup_insert_ne).
    assert ((<[l := fr]> h : heap) !! l = Some fr) as Hl
      by apply lookup_insert_eq.
    rewrite (M_bind_ok _ _ _ _ _ (copy_allocated _ _ _ Hdf)). fold l.
    rewrite (M_bind_ok _ _ _ _ _ (getitem_column _ _ _ _ _ Hdf' Htime)).
    rewrite (M_bind_ok _ _ _ _ _ (setitem_column_same _ _ _ _ _ Hl Htime)).
    rewrite (M_bind_ok _ _ _ _ _ (getitem_column _ _ _ _ _ Hl Htime)).
    apply M_bind_raise. unfold lift, load_global.
    by rewrite dateparse_unbound.
Qed.

(** ** [timeindex] once [dateparse] is bound

    What the body of [timeindex] does in a module that binds [dateparse] to
    a function of one argument. *)

Section DateparseBound.
Variable to_datetime : value -> result value.
Variable globals : gmap string pyobj.
Variable dateparse : value -> result value.
Hypothesis dateparse_bound : globals !! "dateparse" = Some (PyCallable dateparse).

Variable fr : DataFrame.
Variables vs parsed stamps : list value.
Hypothesis has_time : get_column "Time" (columns fr) = Some vs.
Hypothesis no_clocktime : get_column "ClockTime" (columns fr) = None.
Hypothesis no_clock : get_column "Clock" (columns fr) = None.
Hypothesis parse_ok : mapM dateparse vs = Ok parsed.
Hypothesis stamps_ok : mapM to_datetime vs = Ok stamps.

Lemma load_dateparse :
  load_global globals "dateparse" = Ok (PyCallable dateparse).
Proof. unfold load_global. by rewrite dateparse_bound. Qed.

Lemma apply_dateparse :
  series_apply vs (PyCallable dateparse) = Ok parsed.
Proof. exact parse_ok. Qed.

Lemma with_index_clock :
  with_index "Clock" (with_clock fr parsed stamps)
  = Ok (reindexed fr parsed stamps).
Proof.
  unfold with_index, with_clock, reindexed. simpl columns.
  rewrite <- (set_column_fresh "Clock" stamps); last first.
  { rewrite get_column_snoc_ne; done. }
  rewrite get_set_column.
  rewrite set_column_fresh by (rewrite get_column_snoc_ne; done).
  rewrite drop_column_snoc by (rewrite get_column_snoc_ne; done).
  done.
Qed.

Lemma without_clocktime :
  without_column "ClockTime" (reindexed fr parsed stamps)
  = Ok (indexed fr stamps).
Proof.
  unfold without_column, reindexed, indexed. simpl columns.
  rewrite <- (set_column_fresh "ClockTime" parsed) by done.
  rewrite get_set_column.
  rewrite set_column_fresh by done.
  by rewrite drop_column_snoc.
Qed.

(** The steps shared by both modes, on the frame at [l], before the
    rest [k] of the call. *)
Lemma timeindex_columns {A} (k : M heap A) (h : heap) l :
  h !! l = Some fr ->
  (setitem_column l "Time" vs ;;
   series ← getitem l "Time";
   dateparse ← lift (load_global globals "dateparse");
   clocktime ← lift (series_apply series dateparse);
   setitem_column l "ClockTime" clocktime ;;
   series ← getitem l "Time";
   Time ← lift (mapM to_datetime series);
   setitem_column l "Clock" (DatetimeIndex Time) ;;
   k) h
  = k (<[l := with_clock fr parsed stamps]> h).
Proof.
  intros Hl. unfold lift.
  rewrite (M_bind_ok _ _ _ _ _ (setitem_column_same _ _ _ _ _ Hl has_time)).
  rewrite (M_bind_ok _ _ _ _ _ (getitem_column _ _ _ _ _ Hl has_time)).
  rewrite load_dateparse.
  erewrite M_bind_ok by reflexivity.
  rewrite apply_dateparse.
  erewrite M_bind_ok by reflexivity.
  rewrite (M_bind_ok _ _ _ _ _ (setitem_column_allocated _ _ _ _ _ Hl)).
  rewrite set_column_fresh by done. fold (with_clocktime fr parsed).
  assert ((<[l := with_clocktime fr parsed]> h : heap) !! l
          = Some (with_clocktime fr parsed)) as Hl1
    by apply lookup_insert_eq.
  assert (get_column "Time" (columns (with_clocktime fr parsed)) = Some vs)
    as Htime1.
  { unfold with_clocktime. simpl. by rewrite get_column_snoc_ne. }
  rewrite (M_bind_ok _ _ _ _ _ (getitem_column _ _ _ _ _ Hl1 Htime1)).
  rewrite stamps_ok.
  erewrite M_bind_ok by reflexivity.
  rewrite (M_bind_ok _ _ _ _ _ (setitem_column_allocated _ _ _ _ _ Hl1)).
  unfold with_clocktime at 1. simpl columns.
  rewrite set_column_fresh by (rewrite get_column_snoc_ne; done).
  rewrite insert_insert_eq. done.
Qed.

(** In place: the frame of the caller is the one that is changed, and its
    own reference is returned. *)
Lemma timeindex_inplace_bound (h : heap) df :
  h !! df = Some fr ->
  timeindex to_datetime globals df true h =
    (Ok df, <[df := indexed fr stamps]> h).
Proof.
  intros Hdf. unfold timeindex.
  rewrite (M_bind_ok _ _ h df h) by done.
  rewrite (M_bind_ok _ _ _ _ _ (getitem_column _ _ _ _ _ Hdf has_time)).
  rewrite timeindex_columns by done.
  erewrite M_bind_ok; last first.
  { eapply set_index_inplace_allocated;
      [apply lookup_insert_eq | apply with_index_clock]. }
  erewrite M_bind_ok; last first.
  { eapply frame_drop_inplace_allocated;
      [apply lookup_insert_eq | apply without_clocktime]. }
  by rewrite !insert_insert_eq.
Qed.

(** Copy: the result is a frame allocated by the call; the frame of the
    caller, like every frame that was there before, is as it was. *)
Lemma timeindex_copy_bound (h : heap) df :
  h !! df = Some fr ->
  exists l (h' : heap),
    timeindex to_datetime globals df false h = (Ok l, h')
    /\ h !! l = None
    /\ h' !! l = Some (indexed fr stamps)
    /\ (forall l', is_Some (h !! l') -> h' !! l' = h !! l').
Proof.
  intros Hdf. unfold timeindex.
  set (l1 := fresh (dom h)).
  set (h1 := <[l1 := with_clock fr parsed stamps]> h : heap).
  set (l2 := fresh (dom h1)).
  set (h2 := <[l2 := reindexed fr parsed stamps]> h1 : heap).
  set (l3 := fresh (dom h2)).
  set (h3 := <[l3 := indexed fr stamps]> h2 : heap).
  assert (h !! l1 = None) as Hl1
    by (apply not_elem_of_dom, is_fresh).
  assert (h1 !! l2 = None) as Hl2
    by (apply not_elem_of_dom, is_fresh).
  assert (h2 !! l3 = None) as Hl3
    by (apply not_elem_of_dom, is_fresh).
  assert (forall l', is_Some (h !! l') -> h1 !! l' = h !! l') as Hkeep1.
  { intros l' [fr' Hl']. unfold h1. rewrite lookup_insert_ne; [done|].
    intros <-. congruence. }
  assert (forall l', is_Some (h1 !! l') -> h2 !! l' = h1 !! l') as Hkeep2.
  { intros l' [fr' Hl']. unfold h2. rewrite lookup_insert_ne; [done|].
    intros <-. congruence. }
  assert (forall l', is_Some (h2 !! l') -> h3 !! l' = h2 !! l') as Hkeep3.
  { intros l' [fr' Hl']. unfold h3. rewrite lookup_insert_ne; [done|].
    intros <-. congruence. }
  exists l3, h3. split; [|split; [|split]].
  - rewrite (M_bind_ok _ _ _ _ _ (copy_allocated _ _ _ Hdf)). fold l1.
    assert ((<[l1 := fr]> h : heap) !! df = Some fr) as Hdf1.
    { rewrite lookup_insert_ne; [done|]. intros <-. congruence. }
    rewrite (M_bind_ok _ _ _ _ _ (getitem_column _ _ _ _ _ Hdf1 has_time)).
    rewrite timeindex_columns by apply lookup_insert_eq.
    rewrite insert_insert_eq. fold h1.
    erewrite M_bind_ok; last first.
    { eapply set_index_allocated;
        [apply lookup_insert_eq | apply with_index_clock]. }
    fold l2. fold h2.
    erewrite M_bind_ok; last first.
    { eapply frame_drop_allocated;
        [apply lookup_insert_eq | apply without_clocktime]. }
    done.
  - destruct (h !! l3) as [fr'|] eqn:E; [exfalso|done].
    assert (h1 !! l3 = Some fr') as E1
      by (rewrite Hkeep1; [done | rewrite E; eauto]).
    assert (h2 !! l3 = Some fr') as E2
      by (rewrite Hkeep2; [done | rewrite E1; eauto]).
    congruence.
  - apply lookup_insert_eq.
  - intros l' Hl'.
    assert (is_Some (h1 !! l')) as Hl1' by (by rewrite Hkeep1).
    assert (is_Some (h2 !! l')) as Hl2' by (by rewrite Hkeep2).
    by rewrite Hkeep3, Hkeep2, Hkeep1.
Qed.
End DateparseBound.

Lemma get_column_elem key vs cols :
  get_column key cols = Some vs -> (key, vs) ∈ cols.
Proof.
  induction cols as [|[k old] rest IH]; simpl; [done|].
  destruct (decide (k = key)) as [->|Hne].
  - intros [= ->]. left.
  - intros H. right. by apply IH.
Qed.

Lemma zero_rows_column fr key vs :
  zero_rows fr -> get_column key (columns fr) = Some vs -> vs = [].
Proof.
  intros [_ Hcols] Hcol. apply get_column_elem in Hcol.
  rewrite Forall_forall in Hcols. exact (Hcols _ Hcol).
Qed.

(** With [dateparse] bound, a table without rows goes through in either
    mode: the result has no rows, the columns of the input and the index
    named [Clock]. *)
Lemma timeindex_zero_rows_bound to_datetime globals dateparse
    (h : heap) df fr inplace :
  globals !! "dateparse" = Some (PyCallable dateparse) ->
  h !! df = Some fr ->
  zero_rows fr ->
  is_Some (get_column "Time" (columns fr)) ->
  get_column "ClockTime" (columns fr) = None ->
  get_column "Clock" (columns fr) = None ->
  exists l (h' : heap),
    timeindex to_datetime globals df inplace h = (Ok l, h')
    /\ h' !! l = Some (mk_frame (columns fr) (Some "Clock") []).
Proof.
  intros Hbound Hdf Hzero [vs Htime] Hct Hc.
  assert (vs = []) as -> by (by eapply zero_rows_column).
  destruct inplace.
  - exists df, (<[df := indexed fr []]> h). split.
    + by apply (timeindex_inplace_bound to_datetime globals dateparse Hbound
                  fr [] [] []).
    + apply lookup_insert_eq.
  - destruct (timeindex_copy_bound to_datetime globals dateparse Hbound
                fr [] [] [] Htime Hct Hc eq_refl eq_refl h df Hdf)
      as (l & h' & Hrun & _ & Hl & _).
    by exists l, h'.
Qed.

(** * The claims on the extraction methods *)

(** C1: every written row should be as wide as the header of its file.
    [odometry_data] breaks this: its header declares 17 columns, among them
    [angular.x], [angular.y] and [angular.z], and the row it builds for any
    odometry record stops after [linear.z], with 14 fields. *)
Theorem odometry_row_three_fields_short t m :
  exists row,
    new_row odometry_schema t (MsgOdometry m) = Ok row
    /\ length row = 14
    /\ length (column_names odometry_schema) = 17
    /\ drop 14 (column_names odometry_schema)
       = [ "angular.x"; "angular.y"; "angular.z" ].
Proof. eexists. split; [reflexivity|]. done. Qed.



(** C6: when no line of the topic table has a type the method asks for, the
    method answers the empty list and leaves the file store as it was. *)
Theorem extract_without_matching_topic sch self (fs : files) :
  sch ∈ schemas ->
  (forall r, r ∈ topic_table self ->
     selects (type_to_look sch) (Types r) = false) ->
  extract sch self fs = (Ok [], fs).
Proof.
  intros _ Hnone. unfold extract, topics_to_read, table_rows.
  assert (filter (fun r => selects (type_to_look sch) (Types r) = true)
                 (topic_table self) = []) as ->; [|done].
  induction (topic_table self) as [|r l IH]; [done|].
  rewrite filter_cons_False.
  - apply IH. intros r' Hr'. apply Hnone. by right.
  - rewrite Hnone by left. done.
Qed.

(** C8: the four methods that are not written yet raise
    [NotImplementedError] on every call and touch nothing. *)
Theorem unimplemented_methods_raise self kwargs (fs : files) :
  compressed_images self kwargs fs
    = (Raise (NotImplementedError "To be implemented"), fs)
  /\ pointcloud_data self kwargs fs
    = (Raise (NotImplementedError "To be implemented"), fs)
  /\ animate_laser self fs
    = (Raise (NotImplementedError "To be implemented"), fs)
  /\ animate_pointcloud self fs
    = (Raise (NotImplementedError "To be implemented"), fs).
Proof. done. Qed.


(** C9: a selected topic that carries the three velocity commands of the
    scenario, in a bag whose selected topics hold velocity commands and go
    to files of their own: [vel_data] returns, and the file of the topic
    holds the header and then three rows in arrival order, timed 10.0, 10.5
    and 11.0, each with the six vector components of its record unchanged. *)
Theorem vel_data_three_commands self topic (fs : files) :
  topic ∈ topics_to_read vel_schema self ->
  read_messages self topic = three_commands topic ->
  (forall topic', topic' ∈ topics_to_read vel_schema self ->
     Forall (converts vel_schema) (read_messages self topic')) ->
  (forall topic', topic' ∈ topics_to_read vel_schema self ->
     file_to_write self topic' = file_to_write self topic -> topic' = topic) ->
  exists fs' : files,
    vel_data self fs =
      (Ok (file_to_write self <$> topics_to_read vel_schema self), fs')
    /\ fs' !! file_to_write self topic =
         Some [ CStr <$> vel_columns;
                CFloat <$> [10; 1; 0; 0; 0; 0; 0]%float;
                CFloat <$> [10.5; 2; 0; 0; 0; 0; 1]%float;
                CFloat <$> [11; 0; 0; 0; 0; 0; 0]%float ].
Proof.
  intros Hin Hmsgs Hconv Huniq. unfold vel_data.
  eexists. split; [by apply extract_ok|].
  rewrite store_after_lookup_unique by done.
  by rewrite Hmsgs.
Qed.

(** C10: none of the ROS names [std_msgs/Byte], [std_msgs/UInt8],
    [std_msgs/UInt16], [std_msgs/UInt32] and [std_msgs/UInt64] passes the
    type filter of [std_data]; a topic of such a type is not among the
    selected lines, and the call behaves as on a bag without these topics. *)
Theorem std_data_skips_ros_unsigned self (fs : files) r :
  r ∈ topic_table self ->
  Types r ∈ ros_unsigned_types ->
  selects (type_to_look std_schema) (Types r) = false
  /\ (r ∉ table_rows std_schema self)
  /\ std_data self fs = std_data (without_types ros_unsigned_types self) fs.
Proof.
  intros Hr Hty.
  assert (forall ty, ty ∈ ros_unsigned_types ->
            selects (type_to_look std_schema) ty = false) as Hmiss.
  { intros ty Hin. unfold ros_unsigned_types in Hin.
    repeat (apply elem_of_cons in Hin as [->|Hin]);
      [ .. | by apply elem_of_nil in Hin ]; vm_compute; reflexivity. }
  split; [by apply Hmiss|]. split.
  - unfold table_rows. intros [Hsel _]%list_elem_of_filter.
    rewrite Hmiss in Hsel by done. discriminate.
  - unfold std_data, extract, topics_to_read, table_rows.
    assert (filter (fun r => selects (type_to_look std_schema) (Types r) = true)
              (topic_table (without_types ros_unsigned_types self))
            = filter (fun r => selects (type_to_look std_schema) (Types r) = true)
                (topic_table self)) as Hrows.
    { simpl topic_table. clear Hr.
      induction (topic_table self) as [|r' l IH]; [done|].
      destruct (decide (Types r' ∈ ros_unsigned_types)) as [Hin|Hnin].
      - rewrite (filter_cons_False (fun r => Types r ∉ ros_unsigned_types))
          by (intros Hn; by apply Hn).
        rewrite (filter_cons_False _ r' l) by (by rewrite Hmiss).
        done.
      - rewrite (filter_cons_True (fun r => Types r ∉ ros_unsigned_types))
          by done.
        rewrite !filter_cons. by rewrite IH. }
    rewrite Hrows. clear Hrows.
    generalize (Topics <$>
      filter (fun r => selects (type_to_look std_schema) (Types r) = true)
             (topic_table self)).
    generalize (@nil string). intros csvlist topics. revert csvlist fs.
    induction topics as [|t rest IH]; intros csvlist fs; [done|].
    simpl. unfold mbind, M_bind.
    rewrite !write_topic_spec. simpl.
    change (read_messages (without_types ros_unsigned_types self) t)
      with (read_messages self t).
    change (file_to_write (without_types ros_unsigned_types self) t)
      with (file_to_write self t).
    destruct (first_error std_schema (read_messages self t)); [done|].
    simpl. apply IH.
Qed.

(** * The claims on [timeindex] *)

(** C3: a table without rows that has a [Time] column should be indexed
    without error.  In the module as written the call raises [NameError]
    in both modes, at the read of the unbound global [dateparse], before
    any row would be looked at. *)
Theorem timeindex_zero_rows_raises to_datetime (h : heap) df fr inplace :
  h !! df = Some fr ->
  zero_rows fr ->
  get_column "Time" (columns fr) = Some [] ->
  timeindex to_datetime module_globals df inplace h =
    (Raise (NameError "dateparse"),
     if inplace then h else <[fresh (dom h) := fr]> h).
Proof. intros Hdf _ Htime. by eapply timeindex_stops_at_dateparse. Qed.

(** C7: in place the call should return the table it was given, changed,
    and otherwise a changed copy.  In the module as written no call returns
    a table: whatever the table and the mode, the call raises, [KeyError]
    without a [Time] column and [NameError] for [dateparse] with one, and
    the table of the caller is as it was before the call. *)
Theorem timeindex_returns_no_table to_datetime (h : heap) df fr inplace :
  h !! df = Some fr ->
  exists e (h' : heap),
    timeindex to_datetime module_globals df inplace h = (Raise e, h')
    /\ e = match get_column "Time" (columns fr) with
           | Some _ => NameError "dateparse"
           | None => KeyError "Time"
           end
    /\ h' !! df = Some fr.
Proof.
  intros Hdf. destruct (get_column "Time" (columns fr)) as [vs|] eqn:Htime.
  - eexists _, _. split; [by eapply timeindex_stops_at_dateparse|].
    split; [done|]. destruct inplace; [done|].
    rewrite lookup_insert_ne; [done|]. by eapply fresh_not_allocated.
  - unfold timeindex. destruct inplace.
    + eexists _, _. split; [|split; [reflexivity|]].
      * rewrite (M_bind_ok _ _ h df h) by done.
        apply M_bind_raise. by eapply getitem_missing.
      * done.
    + pose proof (fresh_not_allocated h df fr Hdf) as Hfresh.
      eexists _, _. split; [|split; [reflexivity|]].
      * rewrite (M_bind_ok _ _ _ _ _ (copy_allocated _ _ _ Hdf)).
        apply M_bind_raise. eapply getitem_missing; [|done].
        by rewrite lookup_insert_ne.
      * by rewrite lookup_insert_ne.
Qed.

(** * The statements at sample inputs *)

(** The odometry file of [odom_bag]: a header of seventeen labels over a
    row of fourteen fields. *)
Example odometry_data_odom_bag :
  odometry_data odom_bag ∅ =
    (Ok ["run/-odom.csv"],
     {[ "run/-odom.csv" :=
          [ CStr <$> odometry_columns;
            [ CFloat 5; CInt 1; CStr "odom"; CStr "base_link";
              CFloat 1; CFloat 2; CFloat 3;
              CFloat 0; CFloat 0; CFloat 0; CFloat 1;
              CFloat 4; CFloat 5; CFloat 6 ] ] ]}).
Proof. vm_compute. reflexivity. Qed.







Lemma extract_without_matching_topic_witness :
  extract vel_schema uint8_bag ∅ = (Ok [], ∅).
Proof.
  apply (extract_without_matching_topic vel_schema uint8_bag ∅).
  - unfold schemas. right. left.
  - intros r ->%list_elem_of_singleton. reflexivity.
Defined.

Lemma vel_data_three_commands_witness :
  exists fs' : files,
    vel_data cmd_vel_bag ∅ = (Ok ["run/-cmd_vel.csv"], fs')
    /\ fs' !! "run/-cmd_vel.csv" =
         Some [ CStr <$> vel_columns;
                CFloat <$> [10; 1; 0; 0; 0; 0; 0]%float;
                CFloat <$> [10.5; 2; 0; 0; 0; 0; 1]%float;
                CFloat <$> [11; 0; 0; 0; 0; 0; 0]%float ].
Proof.
  apply (vel_data_three_commands cmd_vel_bag "/cmd_vel" ∅).
  - left.
  - reflexivity.
  - intros topic' ->%list_elem_of_singleton.
    repeat constructor; by eexists.
  - by intros topic' ->%list_elem_of_singleton.
Defined.

Lemma std_data_skips_ros_unsigned_witness :
  selects (type_to_look std_schema) "std_msgs/UInt8" = false
  /\ (mk_topic_row "/level" "std_msgs/UInt8" 1 1 ∉ table_rows std_schema uint8_bag)
  /\ std_data uint8_bag ∅ =
       std_data (without_types ros_unsigned_types uint8_bag) ∅.
Proof.
  apply (std_data_skips_ros_unsigned uint8_bag ∅
           (mk_topic_row "/level" "std_msgs/UInt8" 1 1)).
  - left.
  - simpl. unfold ros_unsigned_types. right. left.
Defined.

(** With nothing selected, [std_data] on [uint8_bag] writes no file. *)
Example std_data_uint8_bag : std_data uint8_bag ∅ = (Ok [], ∅).
Proof. vm_compute. reflexivity. Qed.

Lemma timeindex_zero_rows_raises_witness :
  timeindex (fun v => Ok v) module_globals 0 true {[ 0 := empty_vel_table ]} =
    (Raise (NameError "dateparse"), {[ 0 := empty_vel_table ]}).
Proof.
  apply (timeindex_zero_rows_raises (fun v => Ok v) {[ 0 := empty_vel_table ]}
           0 empty_vel_table true).
  - apply lookup_singleton_eq.
  - split; [reflexivity|]. unfold empty_vel_table. simpl.
    repeat constructor.
  - reflexivity.
Defined.

Lemma timeindex_returns_no_table_witness :
  exists e (h' : heap),
    timeindex (fun v => Ok v) module_globals 0 false {[ 0 := two_row_table ]}
      = (Raise e, h')
    /\ e = NameError "dateparse"
    /\ h' !! 0 = Some two_row_table.
Proof.
  apply (timeindex_returns_no_table (fun v => Ok v) {[ 0 := two_row_table ]}
           0 two_row_table false).
  apply lookup_singleton_eq.
Defined.

(** * Further properties *)

(** ** [find] *)

Lemma find_from_elem s c : forall i j,
  j ∈ find_from i s (String c EmptyString) <->
  i <= j /\ String.get (j - i) s = Some c.
Proof.
  induction s as [|ltr s IH]; intros i j; simpl.
  - split; [by intros ?%elem_of_nil | by intros [_ ?]].
  - destruct (decide (String ltr EmptyString = String c EmptyString))
      as [Heq|Hne].
    + injection Heq as ->. rewrite elem_of_cons, IH. split.
      * intros [->|[Hle Hget]].
        -- split; [lia|]. by rewrite Nat.sub_diag.
        -- split; [lia|]. by replace (j - i) with (S (j - S i)) by lia.
      * intros [Hle Hget]. destruct (decide (j = i)) as [->|Hji]; [by left|].
        right. split; [lia|].
        by replace (j - i) with (S (j - S i)) in Hget by lia.
    + rewrite IH. split.
      * intros [Hle Hget]. split; [lia|].
        by replace (j - i) with (S (j - S i)) by lia.
      * intros [Hle Hget]. destruct (decide (j = i)) as [->|Hji].
        -- rewrite Nat.sub_diag in Hget. simpl in Hget. congruence.
        -- split; [lia|].
           by replace (j - i) with (S (j - S i)) in Hget by lia.
Qed.

Lemma find_from_bounds s ch : forall i j,
  j ∈ find_from i s ch -> i <= j < i + String.length s.
Proof.
  induction s as [|ltr s IH]; intros i j; simpl.
  - by intros ?%elem_of_nil.
  - destruct (decide (String ltr EmptyString = ch)).
    + intros [->|Hin%IH]%elem_of_cons; lia.
    + intros Hin%IH. lia.
Qed.

Lemma find_from_sorted s ch : forall i (m n a b : nat),
  m < n ->
  find_from i s ch !! m = Some a -> find_from i s ch !! n = Some b -> a < b.
Proof.
  induction s as [|ltr s IH]; intros i m n a b Hmn Ha Hb; simpl in *;
    [done|].
  destruct (decide (String ltr EmptyString = ch)); [|by eapply IH].
  destruct n as [|n]; [lia|]. simpl in Hb.
  destruct m as [|m]; simpl in Ha.
  - injection Ha as <-.
    apply list_elem_of_lookup_2, find_from_bounds in Hb. lia.
  - eapply (IH (S i) m n); [lia | done..].
Qed.

Lemma find_from_length s ch : forall i,
  length (find_from i s ch) <= String.length s.
Proof.
  induction s as [|ltr s IH]; intros i; simpl; [done|].
  destruct (decide (String ltr EmptyString = ch)); simpl.
  - specialize (IH (S i)). lia.
  - specialize (IH (S i)). lia.
Qed.

Lemma find_from_app s1 s2 ch : forall i,
  find_from i (s1 +:+ s2) ch =
    find_from i s1 ch ++ find_from (i + String.length s1) s2 ch.
Proof.
  induction s1 as [|ltr s1 IH]; intros i.
  - simpl. by rewrite Nat.add_0_r.
  - change (String ltr s1 +:+ s2) with (String ltr (s1 +:+ s2)). simpl.
    replace (i + S (String.length s1)) with (S i + String.length s1) by lia.
    destruct (decide (String ltr EmptyString = ch)); by rewrite IH.
Qed.

Lemma find_from_slash_free s : forall i,
  slash_free s = true -> find_from i s "/" = [].
Proof.
  induction s as [|ltr s IH]; intros i Hfree; simpl; [done|].
  simpl in Hfree. apply andb_prop in Hfree as [Hc Hs].
  apply negb_true_iff, Ascii.eqb_neq in Hc.
  rewrite decide_False by congruence. by apply IH.
Qed.

(** X1: [find s ch], for a one-character [ch], lists exactly the positions
    of [s] that hold that character. *)
Theorem find_positions s c j :
  j ∈ find s (String c EmptyString) <-> String.get j s = Some c.
Proof.
  unfold find. rewrite find_from_elem, Nat.sub_0_r. split.
  - by intros [_ ?].
  - intros ?. split; [lia | done].
Qed.

(** X2: the positions answered by [find] are strictly increasing, so none
    is repeated, and all lie inside the string. *)
Theorem find_increasing s ch :
  (forall m n a b : nat,
     m < n -> find s ch !! m = Some a -> find s ch !! n = Some b -> a < b)
  /\ Forall (fun j => j < String.length s) (find s ch)
  /\ length (find s ch) <= String.length s.
Proof.
  unfold find. split; [apply find_from_sorted|]. split.
  - apply Forall_forall. intros j Hin%find_from_bounds. lia.
  - apply find_from_length.
Qed.

(** X3: [find] compares single characters with the whole of [ch]: it is no
    substring search, and a [ch] that is not one character long is found
    nowhere. *)
Theorem find_needs_one_character s ch :
  String.length ch <> 1 -> find s ch = [].
Proof.
  intros Hlen. unfold find. generalize 0.
  induction s as [|ltr s IH]; intros i; simpl; [done|].
  rewrite decide_False; [apply IH|].
  intros <-. by apply Hlen.
Qed.

Lemma find_needs_one_character_witness : find "a//b" "//" = [].
Proof. apply (find_needs_one_character "a//b" "//"). simpl. lia. Defined.

(** ** Slices and the attributes set by [__init__] *)

Lemma string_take_drop n s : string_take n s +:+ string_drop n s = s.
Proof.
  revert s. induction n as [|n IH]; intros [|c s]; try done.
  simpl. change (String c (string_take n s +:+ string_drop n s) = String c s).
  by rewrite IH.
Qed.

Lemma string_drop_app s1 s2 : string_drop (String.length s1) (s1 +:+ s2) = s2.
Proof.
  induction s1 as [|c s1 IH]; [by destruct s2|].
  change (String c s1 +:+ s2) with (String c (s1 +:+ s2)). simpl. apply IH.
Qed.

Lemma string_take_app s1 s2 : string_take (String.length s1) (s1 +:+ s2) = s1.
Proof.
  induction s1 as [|c s1 IH]; [by destruct s2|].
  change (String c s1 +:+ s2) with (String c (s1 +:+ s2)). simpl.
  by rewrite IH.
Qed.

Lemma string_take_short n s : String.length s <= n -> string_take n s = s.
Proof.
  revert s. induction n as [|n IH]; intros [|c s] Hlen; simpl in *;
    try done; try lia.
  rewrite IH; [done | lia].
Qed.

Lemma string_drop_length n s :
  String.length (string_drop n s) = String.length s - n.
Proof.
  revert s. induction n as [|n IH]; intros [|c s]; simpl; try done; lia.
Qed.

Lemma string_take_0 s : string_take 0 s = "".
Proof. by destruct s. Qed.

Lemma slice_bound_inside len n :
  n <= len -> slice_bound len (Z.of_nat n) = n.
Proof.
  intros Hn. unfold slice_bound.
  destruct (Z.ltb_spec (Z.of_nat n) 0); [lia|].
  rewrite Nat2Z.id. lia.
Qed.

Lemma slice_from s1 s2 :
  slice (s1 +:+ s2) (Some (Z.of_nat (String.length s1))) None = s2.
Proof.
  unfold slice. simpl from_option.
  rewrite slice_bound_inside by (rewrite string_length_app; lia).
  rewrite string_drop_app.
  apply string_take_short. rewrite string_length_app. lia.
Qed.

Lemma slice_between s1 s2 s3 :
  slice (s1 +:+ s2 +:+ s3)
    (Some (Z.of_nat (String.length s1)))
    (Some (Z.of_nat (String.length s1 + String.length s2))) = s2.
Proof.
  unfold slice. simpl from_option.
  rewrite !slice_bound_inside by (rewrite !string_length_app; lia).
  rewrite string_drop_app.
  replace (String.length s1 + String.length s2 - String.length s1)
    with (String.length s2) by lia.
  apply string_take_app.
Qed.

Lemma list_getitem_last {A} (l : list A) a :
  list_getitem (l ++ [a]) (-1) = Ok a.
Proof.
  unfold list_getitem. rewrite length_app. simpl length.
  destruct (Z.ltb_spec (-1) 0); [|lia].
  destruct (Z.ltb_spec (Z.of_nat (length l + 1) + -1) 0); [lia|].
  replace (Z.to_nat (Z.of_nat (length l + 1) + -1)) with (length l) by lia.
  by rewrite list_lookup_middle.
Qed.

Lemma list_getitem_first {A} (l : list A) a :
  list_getitem (a :: l) 0 = Ok a.
Proof. done. Qed.

Lemma init_names_ok bagfile :
  exists nm, init_names bagfile = Ok nm
    /\ exists front, bagfile = front +:+ filename nm.
Proof.
  unfold init_names.
  destruct (decide (0 < length (find bagfile "/"))) as [Hlen|Hlen].
  - destruct (find bagfile "/") as [|first rest] eqn:Hfind using rev_ind;
      [simpl in Hlen; lia|].
    clear IHrest. rewrite list_getitem_last. simpl.
    destruct (list_getitem (rest ++ [first]) 0) as [a|e] eqn:Hfirst.
    + simpl. eexists. split; [reflexivity|]. simpl filename.
      exists (string_take (slice_bound (String.length bagfile)
                             (Z.of_nat first)) bagfile).
      unfold slice. simpl from_option.
      rewrite (string_take_short _ (string_drop _ _)).
      * by rewrite string_take_drop.
      * by rewrite string_drop_length.
    + destruct rest; discriminate.
  - exists (mk_names bagfile "./"). split; [done|]. by exists "".
Qed.

Lemma init_datafolder_stem stem ext :
  String.length ext = 4 -> init_datafolder (stem +:+ ext) = stem.
Proof.
  intros Hext. unfold init_datafolder, slice. simpl from_option.
  unfold slice_bound. simpl.
  rewrite string_length_app, Hext, Nat.sub_0_r.
  replace (Z.to_nat (Z.max 0 (Z.of_nat (String.length stem + 4) + -4)))
    with (String.length stem) by lia.
  apply string_take_app.
Qed.

(** X4: the split of the bag file name never raises, whatever the name:
    the list of slash positions is only indexed when it is not empty.  The
    file name it answers is always the end of the bag file name. *)
Theorem init_names_total bagfile :
  exists nm, init_names bagfile = Ok nm
    /\ exists front, bagfile = front +:+ filename nm.
Proof. apply init_names_ok. Qed.

(** X5: a bag file name without a slash is its own file name, and its
    directory is ["./"]. *)
Theorem init_names_plain bagfile :
  slash_free bagfile = true ->
  init_names bagfile = Ok (mk_names bagfile "./").
Proof.
  intros Hfree. unfold init_names, find.
  by rewrite find_from_slash_free.
Qed.

Lemma init_names_plain_witness :
  init_names "run.bag" = Ok (mk_names "run.bag" "./").
Proof. apply (init_names_plain "run.bag"). reflexivity. Defined.

Lemma find_from_last_slash i base :
  slash_free base = true -> find_from i ("/" +:+ base) "/" = [i].
Proof.
  intros Hbase. change ("/" +:+ base) with (String "/" base). simpl.
  by rewrite find_from_slash_free.
Qed.

(** X6: a bag file name with a slash.  The file name answered starts at the
    last slash and keeps it; the directory runs from the first slash to
    just before the last one, so what stands before the first slash is
    lost, and with a single slash the directory is empty. *)
Theorem init_names_split front middle base :
  slash_free front = true ->
  slash_free base = true ->
  middle = "" \/ (exists rest, middle = "/" +:+ rest) ->
  init_names (front +:+ middle +:+ "/" +:+ base) =
    Ok (mk_names ("/" +:+ base) middle).
Proof.
  intros Hfront Hbase Hmiddle. unfold init_names, find.
  rewrite (find_from_app front), (find_from_app middle).
  rewrite (find_from_slash_free front) by done.
  rewrite find_from_last_slash by done.
  rewrite app_nil_l. simpl Nat.add.
  set (n1 := String.length front). set (n2 := String.length middle).
  assert (exists a,
    list_getitem (find_from n1 middle "/" ++ [n1 + n2]) 0 = Ok a
    /\ (middle = "" /\ a = n1 + n2 \/ middle <> "" /\ a = n1)) as (a & Ha & Hcase).
  { destruct Hmiddle as [->|[rest ->]].
    - simpl. exists (n1 + n2). split; [done|]. by left.
    - change ("/" +:+ rest) with (String "/" rest). simpl.
      exists n1. split; [done|]. by right. }
  rewrite decide_True by (rewrite length_app; simpl; lia).
  rewrite list_getitem_last, Ha. simpl.
  do 2 f_equal.
  - replace (Z.of_nat (n1 + n2))
      with (Z.of_nat (String.length (front +:+ middle)))
      by (by rewrite string_length_app).
    assert (front +:+ (middle +:+ ("/" +:+ base))
            = (front +:+ middle) +:+ ("/" +:+ base)) as ->.
    { clear. induction front as [|c front IH]; [done|].
      change (String c (front +:+ (middle +:+ ("/" +:+ base)))
              = String c ((front +:+ middle) +:+ ("/" +:+ base))).
      by rewrite IH. }
    apply slice_from.
  - destruct Hcase as [[-> ->]|[Hne ->]].
    + unfold slice. simpl from_option.
      rewrite Nat.sub_diag. apply string_take_0.
    + apply slice_between.
Qed.

Lemma init_names_split_witness :
  init_names "logs/day1/run.bag" = Ok (mk_names "/run.bag" "/day1").
Proof.
  apply (init_names_split "logs" "/day1" "run.bag"); [done | done |].
  right. by exists "day1".
Defined.

(** X7: the data folder is the bag file name without its last four
    characters, whatever they are; a name of at most four characters gives
    the empty folder name. *)
Theorem init_datafolder_strips_four :
  (forall stem ext,
     String.length ext = 4 -> init_datafolder (stem +:+ ext) = stem)
  /\ (forall bagfile,
        String.length bagfile <= 4 -> init_datafolder bagfile = "").
Proof.
  split; [apply init_datafolder_stem|].
  intros bagfile Hlen. unfold init_datafolder, slice. simpl from_option.
  unfold slice_bound. simpl.
  replace (Z.to_nat (Z.max 0 (Z.of_nat (String.length bagfile) + -4)))
    with 0 by lia.
  apply string_take_0.
Qed.

Lemma init_topic_table_lines topics :
  init_topic_table topics =
    (fun p => mk_topic_row p.1 (msg_type p.2) (message_count p.2)
                (frequency p.2)) <$> topics.
Proof.
  unfold init_topic_table.
  induction topics as [|[topic tuple] rest IH]; [done|].
  rewrite !fmap_cons. simpl zip. rewrite !fmap_cons. f_equal. apply IH.
Qed.

(** X8: a reader built by [__init__] has one line per topic of the bag, in
    the order of the bag, each with the type reported for that very topic;
    so every extraction method selects exactly the topics of the bag whose
    reported type passes its filter, in the order of the bag. *)
Theorem bagreader_init_selects bagfile bag sch :
  exists nm self,
    bagreader_init bagfile bag = Ok (nm, self)
    /\ reader self = bag_messages bag
    /\ Topics <$> topic_table self = fst <$> bag_topics bag
    /\ topics_to_read sch self =
         fst <$> filter (fun p => selects (type_to_look sch) (msg_type p.2) = true)
                        (bag_topics bag).
Proof.
  destruct (init_names_ok bagfile) as (nm & Hnm & _).
  eexists nm, _. unfold bagreader_init. rewrite Hnm. simpl.
  split; [reflexivity|]. split; [reflexivity|]. simpl topic_table.
  rewrite init_topic_table_lines. split.
  - rewrite <- list_fmap_compose. by apply list_fmap_ext.
  - unfold topics_to_read, table_rows. simpl topic_table.
    rewrite ?init_topic_table_lines.
    induction (bag_topics bag) as [|[topic tuple] rest IH]; [done|].
    rewrite fmap_cons, !filter_cons. simpl.
    destruct (decide (selects (type_to_look sch) (msg_type tuple) = true));
      rewrite ?fmap_cons; simpl; by f_equal.
Qed.

(** X9: from bag file name to CSV file name.  For a reader built by
    [__init__] from a name with a four-character extension, the file of a
    topic is the name without the extension, a slash, the topic with its
    slashes turned into hyphens, and [.csv]. *)
Theorem bagreader_init_file_to_write stem ext bag nm self topic :
  String.length ext = 4 ->
  bagreader_init (stem +:+ ext) bag = Ok (nm, self) ->
  file_to_write self topic = stem +:+ "/" +:+ replace "/" "-" topic +:+ ".csv".
Proof.
  intros Hext Hinit. unfold bagreader_init in Hinit.
  destruct (init_names (stem +:+ ext)) as [nm'|e]; [|discriminate].
  simpl in Hinit. injection Hinit as _ <-.
  unfold file_to_write. simpl datafolder.
  by rewrite init_datafolder_stem.
Qed.

Lemma bagreader_init_file_to_write_witness :
  match bagreader_init "/home/ece446/run.bag" home_bag with
  | Ok (nm, self) =>
      file_to_write self "/cmd_vel" = "/home/ece446/run/-cmd_vel.csv"
  | Raise _ => False
  end.
Proof.
  destruct (bagreader_init "/home/ece446/run.bag" home_bag)
    as [[nm self]|e] eqn:Hinit.
  - apply (bagreader_init_file_to_write "/home/ece446/run" ".bag" home_bag
             nm self "/cmd_vel"); [reflexivity | exact Hinit].
  - discriminate Hinit.
Defined.

(** ** What an extraction call writes *)

(** X10: a call of an extraction method, whether it returns or raises,
    leaves alone every path that is not the file of one of its selected
    topics. *)
Theorem extract_leaves_other_files sch self (fs : files) path :
  (forall topic, topic ∈ topics_to_read sch self ->
     file_to_write self topic <> path) ->
  (extract sch self fs).2 !! path = fs !! path.
Proof.
  intros Hother. unfold extract. rewrite topic_loop_course. simpl.
  apply store_after_other. intros topic Hin.
  by apply Hother, (reached_subseteq sch self).
Qed.

Lemma extract_leaves_other_files_witness :
  (vel_data cmd_vel_bag {[ "run/notes.txt" := [[CStr "keep"]] ]}).2
    !! "run/notes.txt" = Some [[CStr "keep"]].
Proof.
  rewrite (extract_leaves_other_files vel_schema cmd_vel_bag
             {[ "run/notes.txt" := [[CStr "keep"]] ]} "run/notes.txt").
  - reflexivity.
  - intros topic ->%list_elem_of_singleton. discriminate.
Defined.

(** X11: a file is opened for writing afresh, so a second call of the same
    method on the same bag gives the answer of the first, or raises the
    same exception, and leaves the store as the first call left it. *)
Theorem extract_twice sch self (fs : files) :
  extract sch self (extract sch self fs).2 = extract sch self fs.
Proof.
  unfold extract. rewrite !topic_loop_course. simpl.
  by rewrite store_after_again.
Qed.

(** X12: for every method but [odometry_data], whatever a call leaves at a
    path is either what was there before the call or a table whose rows,
    header included, all have the number of fields of the header; this
    holds also when the call raises part way. *)
Theorem extract_files_rectangular sch self (fs : files) path rows :
  sch ∈ [laser_schema; vel_schema; std_schema; wrench_schema; clock_schema] ->
  (extract sch self fs).2 !! path = Some rows ->
  fs !! path = Some rows
  \/ Forall (fun row => length row = length (column_names sch)) rows.
Proof.
  intros Hsch. unfold extract. rewrite topic_loop_course. simpl.
  set (topics := reached sch self (topics_to_read sch self)).
  destruct (decide (path ∈ (file_to_write self <$> topics))) as [Hin|Hnin].
  - apply list_elem_of_fmap in Hin as (topic & -> & Hin).
    destruct (store_after_lookup sch self topics fs topic Hin)
      as (topic' & _ & _ & ->).
    intros [= <-]. right. constructor.
    + unfold header_row. by rewrite length_fmap.
    + apply Forall_forall. intros row Hrow.
      destruct (rows_written_convert _ _ _ Hrow) as (r & _ & Hr).
      by eapply row_width.
  - rewrite store_after_other; [by left|].
    intros topic Htopic <-. apply Hnin, list_elem_of_fmap. eauto.
Qed.

Lemma extract_files_rectangular_witness :
  Forall (fun row : row => length row = 7)
    [ CStr <$> vel_columns;
      CFloat <$> [10; 1; 0; 0; 0; 0; 0]%float;
      CFloat <$> [10.5; 2; 0; 0; 0; 0; 1]%float;
      CFloat <$> [11; 0; 0; 0; 0; 0; 0]%float ].
Proof.
  destruct (extract_files_rectangular vel_schema cmd_vel_bag ∅
              "run/-cmd_vel.csv"
              [ CStr <$> vel_columns;
                CFloat <$> [10; 1; 0; 0; 0; 0; 0]%float;
                CFloat <$> [10.5; 2; 0; 0; 0; 0; 1]%float;
                CFloat <$> [11; 0; 0; 0; 0; 0; 0]%float ]) as [Hold|Hrows].
  - right. left.
  - vm_compute. reflexivity.
  - rewrite lookup_empty in Hold. discriminate Hold.
  - exact Hrows.
Defined.

(** X13: when the records of the selected topics convert and a topic has
    its file to itself, that file holds, below the header, one row per
    record of the topic, in the order of the bag: nothing is reordered,
    merged or left out. *)
Theorem extract_rows_follow_records sch self (fs : files) topic :
  topic ∈ topics_to_read sch self ->
  (forall topic', topic' ∈ topics_to_read sch self ->
     Forall (converts sch) (read_messages self topic')) ->
  (forall topic', topic' ∈ topics_to_read sch self ->
     file_to_write self topic' = file_to_write self topic -> topic' = topic) ->
  exists rows,
    (extract sch self fs).2 !! file_to_write self topic
      = Some (header_row sch :: rows)
    /\ Forall2 (fun r row => new_row sch (rec_t r) (rec_msg r) = Ok row)
               (read_messages self topic) rows.
Proof.
  intros Hin Hconv Huniq. rewrite extract_ok by done. simpl.
  rewrite store_after_lookup_unique by done.
  eexists. split; [reflexivity|].
  by apply rows_written_in_order, first_error_None, Hconv.
Qed.

Lemma extract_rows_follow_records_witness :
  exists rows,
    (extract vel_schema cmd_vel_bag ∅).2 !! file_to_write cmd_vel_bag "/cmd_vel"
      = Some (header_row vel_schema :: rows)
    /\ Forall2 (fun r row => new_row vel_schema (rec_t r) (rec_msg r) = Ok row)
               (read_messages cmd_vel_bag "/cmd_vel") rows.
Proof.
  apply (extract_rows_follow_records vel_schema cmd_vel_bag ∅ "/cmd_vel").
  - left.
  - intros topic' ->%list_elem_of_singleton.
    repeat constructor; by eexists.
  - by intros topic' ->%list_elem_of_singleton.
Defined.

(** ** Topics, records and file names *)

Lemma read_messages_without bf msgs1 r msgs2 table folder topic :
  rec_topic r <> topic ->
  read_messages (mk_bagreader bf (msgs1 ++ r :: msgs2) table folder) topic
  = read_messages (mk_bagreader bf (msgs1 ++ msgs2) table folder) topic.
Proof.
  intros Hne. unfold read_messages. simpl reader.
  rewrite !filter_app. by rewrite filter_cons_False.
Qed.

Lemma topic_loop_same_records sch self1 self2 topics :
  datafolder self1 = datafolder self2 ->
  (forall topic, topic ∈ topics ->
     read_messages self1 topic = read_messages self2 topic) ->
  forall csvlist (fs : files),
    topic_loop sch self1 topics csvlist fs
    = topic_loop sch self2 topics csvlist fs.
Proof.
  intros Hfolder. induction topics as [|topic rest IH];
    intros Hmsgs csvlist fs; [done|].
  simpl. unfold mbind, M_bind. rewrite !write_topic_spec.
  rewrite (Hmsgs topic) by left.
  unfold file_to_write. rewrite Hfolder.
  destruct (first_error sch (read_messages self2 topic)); [done|].
  simpl. apply IH. intros ? ?. apply Hmsgs. by right.
Qed.

(** X14: a topic is extracted from its own records alone: a record on a
    topic that the method does not select, wherever it stands in the bag,
    changes neither the answer of the call nor any file. *)
Theorem extract_ignores_other_topics sch bf msgs1 r msgs2 table folder
    (fs : files) :
  rec_topic r ∉ topics_to_read sch (mk_bagreader bf (msgs1 ++ msgs2) table folder) ->
  extract sch (mk_bagreader bf (msgs1 ++ r :: msgs2) table folder) fs
  = extract sch (mk_bagreader bf (msgs1 ++ msgs2) table folder) fs.
Proof.
  intros Hnot. unfold extract.
  change (topics_to_read sch (mk_bagreader bf (msgs1 ++ r :: msgs2) table folder))
    with (topics_to_read sch (mk_bagreader bf (msgs1 ++ msgs2) table folder)).
  apply topic_loop_same_records; [done|].
  intros topic Hin. apply read_messages_without. by intros <-.
Qed.

Lemma extract_ignores_other_topics_witness :
  extract vel_schema
    (mk_bagreader "run.bag"
       ([] ++ stamped "/level" 1 0 (MsgStd (CInt 200)) :: three_commands "/cmd_vel")
       [ mk_topic_row "/cmd_vel" "geometry_msgs/Twist" 3 2 ] "run") ∅
  = extract vel_schema
      (mk_bagreader "run.bag" ([] ++ three_commands "/cmd_vel")
         [ mk_topic_row "/cmd_vel" "geometry_msgs/Twist" 3 2 ] "run") ∅.
Proof.
  apply (extract_ignores_other_topics vel_schema "run.bag" []
           (stamped "/level" 1 0 (MsgStd (CInt 200)))
           (three_commands "/cmd_vel")).
  intros Hin%list_elem_of_singleton. discriminate Hin.
Defined.

Lemma replace_slash_free s : slash_free (replace "/" "-" s) = true.
Proof.
  induction s as [|c s IH]; [done|]. simpl.
  rewrite IH, andb_true_r.
  destruct (Ascii.eqb_spec c "/") as [->|Hne]; [done|].
  by apply negb_true_iff, Ascii.eqb_neq.
Qed.

Lemma replace_length a b s : String.length (replace a b s) = String.length s.
Proof. induction s as [|c s IH]; [done|]. simpl. by rewrite IH. Qed.

(** X15: every file lies directly in the data folder: its name is the data
    folder, a slash, a name without any slash and as long as the topic, and
    [.csv]; a topic without slashes keeps its name. *)
Theorem file_to_write_flat self topic :
  exists name,
    file_to_write self topic = datafolder self +:+ "/" +:+ name +:+ ".csv"
    /\ slash_free name = true
    /\ String.length name = String.length topic
    /\ (slash_free topic = true -> name = topic).
Proof.
  exists (replace "/" "-" topic). split; [done|].
  split; [apply replace_slash_free|]. split; [apply replace_length|].
  induction topic as [|c topic IH]; [done|]. simpl.
  intros [Hc Hs]%andb_prop. apply negb_true_iff in Hc.
  rewrite Hc. by rewrite IH.
Qed.

(** X16: two topic names without hyphens, as ROS names are, that differ are
    written to different files: no topic overwrites the file of another. *)
Theorem distinct_topics_distinct_files self topic1 topic2 :
  hyphen_free topic1 = true -> hyphen_free topic2 = true ->
  topic1 <> topic2 ->
  file_to_write self topic1 <> file_to_write self topic2.
Proof.
  intros H1 H2 Hne Hfile. apply Hne.
  unfold file_to_write in Hfile.
  apply (inj (String.app _)) in Hfile. apply (inj (String.app _)) in Hfile.
  apply string_app_cancel_r in Hfile. by apply replace_slash_inj.
Qed.

Lemma distinct_topics_distinct_files_witness :
  file_to_write cmd_vel_bag "/robot/cmd_vel"
  <> file_to_write cmd_vel_bag "/robot_cmd_vel".
Proof.
  apply (distinct_topics_distinct_files cmd_vel_bag
           "/robot/cmd_vel" "/robot_cmd_vel"); [reflexivity.. | discriminate].
Defined.

(** ** The columns of a scan *)

Lemma numbered_lookup pre n p :
  p < n -> numbered pre n !! p = Some (pre +:+ pretty p).
Proof.
  intros Hp. unfold numbered.
  by rewrite list_lookup_fmap, lookup_seq_lt.
Qed.

Lemma padded_lookup n values p :
  length values <= n -> p < n ->
  padded n values !! p = Some (from_option CFloat CNone (values !! p)).
Proof.
  intros Hlen Hp. unfold padded.
  destruct (decide (p < length values)) as [Hin|Hout].
  - rewrite lookup_app_l by (by rewrite length_fmap).
    rewrite list_lookup_fmap.
    destruct (lookup_lt_is_Some_2 values p Hin) as [v ->]. done.
  - rewrite lookup_app_r by (rewrite length_fmap; lia).
    rewrite lookup_replicate_2 by (rewrite length_fmap; lia).
    by rewrite lookup_ge_None_2 by lia.
Qed.

(** X17: in a scan file the value of beam [p] stands under the label of
    beam [p]: field [10 + p] of a row is range [p] of the scan, or [None]
    when the scan has no such beam, under the label [ranges_p]; field
    [192 + p] is intensity [p], under [intensities_p]. *)
Theorem laser_row_aligned t m row p :
  new_row laser_schema t (MsgLaserScan m) = Ok row ->
  p < 182 ->
  column_names laser_schema !! (10 + p) = Some ("ranges_" +:+ pretty p)
  /\ row !! (10 + p)
     = Some (from_option CFloat CNone (LaserScan.ranges m !! p))
  /\ column_names laser_schema !! (192 + p)
     = Some ("intensities_" +:+ pretty p)
  /\ row !! (192 + p)
     = Some (from_option CFloat CNone (LaserScan.intensities m !! p)).
Proof.
  intros Hrow Hp.
  destruct (proj1 (laser_row_total t m)) as [Hr Hi]; [by eexists|].
  change (new_row laser_schema t (MsgLaserScan m))
    with (laser_row t (MsgLaserScan m)) in Hrow.
  rewrite laser_row_fits in Hrow by done.
  assert (length (laser_scalars t m) = 10) as Hten by done.
  remember (laser_scalars t m) as scalars eqn:Hscalars. clear Hscalars.
  injection Hrow as <-.
  assert (length (scalars ++ padded 182 (LaserScan.ranges m)) = 192)
    as Hfront by (rewrite length_app, padded_length, Hten by done; done).
  simpl column_names. unfold laser_columns.
  set (labels := [ "Time"; "header.seq"; "header.frame_id"; "angle_min";
                   "angle_max"; "angle_increment"; "time_increment";
                   "scan_time"; "range_min"; "range_max" ]).
  assert (length labels = 10) as Hlabels by done.
  assert (length (labels ++ numbered "ranges_" 182) = 192) as Hlabels2.
  { rewrite length_app, Hlabels. unfold numbered.
    by rewrite length_fmap, length_seq. }
  split; [|split; [|split]].
  - rewrite lookup_app_l by lia.
    rewrite lookup_app_r by lia.
    rewrite Hlabels. replace (10 + p - 10) with p by lia.
    by apply numbered_lookup.
  - rewrite lookup_app_l by lia.
    rewrite lookup_app_r by lia.
    rewrite Hten. replace (10 + p - 10) with p by lia.
    by apply padded_lookup.
  - rewrite lookup_app_r by lia.
    rewrite Hlabels2. replace (192 + p - 192) with p by lia.
    by apply numbered_lookup.
  - rewrite lookup_app_r by lia.
    rewrite Hfront. replace (192 + p - 192) with p by lia.
    by apply padded_lookup.
Qed.

Lemma laser_row_aligned_witness :
  exists row,
    new_row laser_schema (RosTime.mk 20 0) (MsgLaserScan short_scan) = Ok row
    /\ column_names laser_schema !! 11 = Some "ranges_1"
    /\ row !! 11 = Some (CFloat 5)
    /\ column_names laser_schema !! 193 = Some "intensities_1"
    /\ row !! 193 = Some CNone.
Proof.
  eexists. split; [reflexivity|].
  apply (laser_row_aligned (RosTime.mk 20 0) short_scan _ 1);
    [reflexivity | lia].
Defined.

(** ** [timeindex] in a module that binds [dateparse] *)

(** X18: where the global [dateparse] is bound to a function of one
    argument, a table with a [Time] column and no [Clock] or [ClockTime]
    column, whose times all parse and convert, is indexed in place: the
    call returns the reference it was given, and the frame there keeps its
    columns, [Time] among them, and gets the converted times as its index,
    named [Clock]; the parsed dates are dropped again. *)
Theorem timeindex_in_place_when_bound to_datetime globals dateparse
    fr vs parsed stamps (h : heap) df :
  globals !! "dateparse" = Some (PyCallable dateparse) ->
  get_column "Time" (columns fr) = Some vs ->
  get_column "ClockTime" (columns fr) = None ->
  get_column "Clock" (columns fr) = None ->
  mapM dateparse vs = Ok parsed ->
  mapM to_datetime vs = Ok stamps ->
  h !! df = Some fr ->
  timeindex to_datetime globals df true h =
    (Ok df, <[df := mk_frame (columns fr) (Some "Clock") stamps]> h).
Proof. intros. by eapply timeindex_inplace_bound. Qed.

Lemma timeindex_in_place_when_bound_witness :
  timeindex (fun v => Ok v) patched_globals 0 true {[ 0 := two_row_table ]} =
    (Ok 0,
     <[0 := mk_frame (columns two_row_table) (Some "Clock")
              [ VCell (CFloat 10); VCell (CFloat 10.5) ]]>
       {[ 0 := two_row_table ]}).
Proof.
  apply (timeindex_in_place_when_bound (fun v => Ok v) patched_globals
           (fun v => Ok v) two_row_table
           [ VCell (CFloat 10); VCell (CFloat 10.5) ]
           [ VCell (CFloat 10); VCell (CFloat 10.5) ]
           [ VCell (CFloat 10); VCell (CFloat 10.5) ]).
  - apply lookup_insert_eq.
  - reflexivity.
  - reflexivity.
  - reflexivity.
  - reflexivity.
  - reflexivity.
  - apply lookup_singleton_eq.
Defined.

(** X19: under the same conditions the call without [inplace] answers a
    frame that did not exist before, holding the indexed table, and every
    frame that existed before the call, the argument among them, is
    unchanged. *)
Theorem timeindex_copy_when_bound to_datetime globals dateparse
    fr vs parsed stamps (h : heap) df :
  globals !! "dateparse" = Some (PyCallable dateparse) ->
  get_column "Time" (columns fr) = Some vs ->
  get_column "ClockTime" (columns fr) = None ->
  get_column "Clock" (columns fr) = None ->
  mapM dateparse vs = Ok parsed ->
  mapM to_datetime vs = Ok stamps ->
  h !! df = Some fr ->
  exists l (h' : heap),
    timeindex to_datetime globals df false h = (Ok l, h')
    /\ h !! l = None
    /\ h' !! l = Some (mk_frame (columns fr) (Some "Clock") stamps)
    /\ (forall l', is_Some (h !! l') -> h' !! l' = h !! l').
Proof. intros. by eapply timeindex_copy_bound. Qed.

Lemma timeindex_copy_when_bound_witness :
  exists l (h' : heap),
    timeindex (fun v => Ok v) patched_globals 0 false {[ 0 := two_row_table ]}
      = (Ok l, h')
    /\ ({[ 0 := two_row_table ]} : heap) !! l = None
    /\ h' !! l = Some (mk_frame (columns two_row_table) (Some "Clock")
                         [ VCell (CFloat 10); VCell (CFloat 10.5) ])
    /\ (forall l', is_Some (({[ 0 := two_row_table ]} : heap) !! l') ->
          h' !! l' = ({[ 0 := two_row_table ]} : heap) !! l').
Proof.
  apply (timeindex_copy_when_bound (fun v => Ok v) patched_globals
           (fun v => Ok v) two_row_table
           [ VCell (CFloat 10); VCell (CFloat 10.5) ]
           [ VCell (CFloat 10); VCell (CFloat 10.5) ]
           [ VCell (CFloat 10); VCell (CFloat 10.5) ]).
  - apply lookup_insert_eq.
  - reflexivity.
  - reflexivity.
  - reflexivity.
  - reflexivity.
  - reflexivity.
  - apply lookup_singleton_eq.
Defined.
